(** * FlappyMax: a shallow embedding of [FlappyMax.py]

    The program is a single pygame module: two sprite classes ([Bird],
    [Obstacle]) and the frame loop of [main].  Integers are Python
    integers ([Z]); the bird's velocity is a Python [float], embedded as a
    primitive binary64 float so that the model computes the same values
    as the interpreter.  A [pygame.Rect] stores integer coordinates. *)

From Stdlib Require Import ZArith List Bool Lia.
From Stdlib Require Import PrimFloat SpecFloat FloatOps Uint63.
Import ListNotations.

#[local] Set Warnings "-inexact-float".
#[local] Open Scope Z_scope.

(** ** Game settings (module level constants) *)

Definition screen_width : Z := 1000.
Definition screen_height : Z := screen_width.
Definition hspeed : Z := 3.
Definition obstacle_interval : Z := 1800.
Definition gap_size : Z := 400.

(** ** [pygame.Rect] *)

Module Rect.

Record t : Type := mk { x : Z; y : Z; w : Z; h : Z }.

Definition left (r : t) : Z := x r.
Definition top (r : t) : Z := y r.
Definition right (r : t) : Z := x r + w r.
Definition bottom (r : t) : Z := y r + h r.
Definition centerx (r : t) : Z := x r + Z.quot (w r) 2.
Definition centery (r : t) : Z := y r + Z.quot (h r) 2.

Definition set_x (r : t) (v : Z) : t := mk v (y r) (w r) (h r).
Definition set_y (r : t) (v : Z) : t := mk (x r) v (w r) (h r).
Definition set_top (r : t) (v : Z) : t := set_y r v.
Definition set_bottom (r : t) (v : Z) : t := set_y r (v - h r).
Definition set_center (r : t) (cx cy : Z) : t :=
  mk (cx - Z.quot (w r) 2) (cy - Z.quot (h r) 2) (w r) (h r).
Definition set_topleft (r : t) (vx vy : Z) : t := mk vx vy (w r) (h r).

(** [Rect.colliderect]: two rectangles overlap when their interiors
    meet; a rectangle of zero width or height overlaps nothing. *)
Definition colliderect (a b : t) : bool :=
  if (w a =? 0) || (h a =? 0) || (w b =? 0) || (h b =? 0) then false
  else
    (Z.min (x a) (x a + w a) <? Z.max (x b) (x b + w b))
    && (Z.min (y a) (y a + h a) <? Z.max (y b) (y b + h b))
    && (Z.min (x b) (x b + w b) <? Z.max (x a) (x a + w a))
    && (Z.min (y b) (y b + h b) <? Z.max (y a) (y a + h a)).

End Rect.

(** [Surface.get_rect()] is the rectangle of the surface's size at the
    origin; keyword arguments then set the named attribute. *)
Definition get_rect_center (width height cx cy : Z) : Rect.t :=
  Rect.set_center (Rect.mk 0 0 width height) cx cy.

Definition get_rect_topleft (width height vx vy : Z) : Rect.t :=
  Rect.set_topleft (Rect.mk 0 0 width height) vx vy.

(** ** Numbers crossing between [int] and [float] *)

(** Python converts the integer operand of [int + float] to a float
    (exactly, for the magnitudes that occur here). *)
Definition float_of_Z (z : Z) : float :=
  match z with
  | Z0 => PrimFloat.zero
  | Zpos _ => PrimFloat.of_uint63 (Uint63.of_Z z)
  | Zneg p => PrimFloat.opp (PrimFloat.of_uint63 (Uint63.of_Z (Zpos p)))
  end.

(** Assigning a float to a [Rect] coordinate stores its integer part:
    the fraction is dropped, rounding toward zero.  Infinities and NaN
    have no integer part (pygame rejects them); they do not arise from
    the velocities of this program and are mapped to 0 here. *)
Definition int_of_float (f : float) : Z :=
  match Prim2SF f with
  | S754_finite s m e =>
      let magnitude :=
        if 0 <=? e then Z.shiftl (Zpos m) e else Z.shiftr (Zpos m) (- e) in
      if s then - magnitude else magnitude
  | _ => 0
  end.

(** ** class Bird *)

Module Bird.

Record t : Type := mk { rect : Rect.t; velocity : float }.

(** The constructor takes [x] and [y] and does not read them. *)
Definition __init__ (x y : Z) : t :=
  mk (get_rect_center 100 100 (screen_width / 2) (screen_height / 2))
     (-5)%float.

Definition move_upwards (b : t) : t := mk (rect b) (-5)%float.

(** Lines 30-31: gravity, then the move. *)
Definition fall (b : t) : t :=
  let v := (velocity b + 0.2)%float in
  let r := rect b in
  mk (Rect.set_y r (int_of_float (float_of_Z (Rect.y r) + v)%float)) v.

(** Lines 34-38: keep the bird on the screen. *)
Definition keep_on_screen (b : t) : t :=
  if Rect.top (rect b) <=? -100 then
    mk (Rect.set_top (rect b) (-100)) (velocity b)
  else if Rect.bottom (rect b) >=? screen_height then
    mk (Rect.set_bottom (rect b) screen_height)
       (- velocity b * 0.75)%float
  else b.

Definition update (b : t) : t := keep_on_screen (fall b).

End Bird.

(** ** class Obstacle *)

Module Obstacle.

(** [alive] is pygame's [Sprite.alive()]: the sprite belongs to a
    group.  The program has one group of obstacles, so the flag is the
    membership of the obstacle in it. *)
Record t : Type := mk {
  gap_size : Z;
  top_height : Z;
  bottom_height : Z;
  scored : bool;
  top_rect : Rect.t;
  bottom_rect : Rect.t;
  alive : bool
}.

Definition height_range : Z * Z := (100, 500).
Definition default_width : Z := 100.

(** [drawn] is the value returned by [random.randint( *height_range)],
    an integer of the closed range. *)
Definition in_height_range (drawn : Z) : Prop :=
  fst height_range <= drawn <= snd height_range.

Definition __init__ (x gap drawn width : Z) : t :=
  let top_height := drawn in
  let bottom_height := screen_height - top_height - gap in
  mk gap top_height bottom_height false
     (get_rect_topleft width top_height x 0)
     (get_rect_topleft width bottom_height x (screen_height - bottom_height))
     false.

Definition kill (o : t) : t :=
  mk (gap_size o) (top_height o) (bottom_height o) (scored o)
     (top_rect o) (bottom_rect o) false.

Definition set_scored (o : t) (v : bool) : t :=
  mk (gap_size o) (top_height o) (bottom_height o) v
     (top_rect o) (bottom_rect o) (alive o).

Definition move_left (o : t) : t :=
  mk (gap_size o) (top_height o) (bottom_height o) (scored o)
     (Rect.set_x (top_rect o) (Rect.x (top_rect o) - hspeed))
     (Rect.set_x (bottom_rect o) (Rect.x (bottom_rect o) - hspeed))
     (alive o).

Definition update (o : t) : t :=
  let o' := move_left o in
  if Rect.right (top_rect o') <? 0 then kill o' else o'.

End Obstacle.

(** [Group.add]: the sprite becomes a member of the group. *)
Definition group_add (o : Obstacle.t) : Obstacle.t :=
  Obstacle.mk (Obstacle.gap_size o) (Obstacle.top_height o)
    (Obstacle.bottom_height o) (Obstacle.scored o)
    (Obstacle.top_rect o) (Obstacle.bottom_rect o) true.

(** ** main *)

Inductive Key : Type := K_SPACE | K_other.

(** The events read by the loop.  The timer event carries the number
    that [random.randint] returns when the obstacle is constructed. *)
Inductive Event : Type :=
| QUIT
| KEYDOWN (key : Key)
| OBSTACLE_TIMER (drawn : Z)
| other_event.

(** The local variables of [main] that the loop reads and writes.
    [bird_group] is a [GroupSingle] that always holds exactly [bird];
    [timer] is the interval in force for the spawn timer, 0 when it is
    stopped. *)
Record Game : Type := mkGame {
  bird : Bird.t;
  obstacles : list Obstacle.t;
  score : Z;
  running : bool;
  timer : Z
}.

(** What one pass of the loop body does, in program order. *)
Inductive Step : Type :=
| ClockTick | EventGet
| ObstacleUpdate | ScoreCheck | CollideTest | RemoveCheck
| GameOverScreen | GroupsEmpty | SetTimer (millis : Z) | NewBird | ScoreReset
| ScreenFill | ObstacleDraw | BirdUpdate | BirdDraw | ScoreDraw | DisplayFlip.

(** The state before the first pass (lines 95-113). *)
Definition start : Game :=
  mkGame (Bird.__init__ (screen_width / 2) (screen_height / 2)) [] 0 true
         obstacle_interval.

(** Lines 117-124. *)
Definition handle_event (g : Game) (e : Event) : Game :=
  match e with
  | QUIT => mkGame (bird g) (obstacles g) (score g) false (timer g)
  | KEYDOWN K_SPACE =>
      mkGame (Bird.move_upwards (bird g)) (obstacles g) (score g)
             (running g) (timer g)
  | KEYDOWN K_other => g
  | OBSTACLE_TIMER drawn =>
      mkGame (bird g)
             (obstacles g ++
                [group_add (Obstacle.__init__ screen_width gap_size drawn
                                              Obstacle.default_width)])
             (score g) (running g) (timer g)
  | other_event => g
  end.

Definition poll_events (events : list Event) (g : Game) : Game :=
  fold_left handle_event events g.

(** Lines 129-131. *)
Definition passed (b : Bird.t) (o : Obstacle.t) : bool :=
  Rect.right (Obstacle.top_rect o) <? Rect.left (Bird.rect b).

Definition score_check (b : Bird.t) (o : Obstacle.t) (score : Z)
  : Obstacle.t * Z :=
  if passed b o && negb (Obstacle.scored o)
  then (Obstacle.set_scored o true, score + 1)
  else (o, score).

(** Line 133. *)
Definition collides (b : Bird.t) (o : Obstacle.t) : bool :=
  Rect.colliderect (Bird.rect b) (Obstacle.top_rect o)
  || Rect.colliderect (Bird.rect b) (Obstacle.bottom_rect o).

(** Lines 137-138. *)
Definition remove_check (o : Obstacle.t) : Obstacle.t :=
  if (Rect.right (Obstacle.top_rect o) <? 0)
     || (Rect.right (Obstacle.bottom_rect o) <? 0)
  then Obstacle.kill o else o.

(** Lines 128-131 for one obstacle. *)
Definition advance_and_score (b : Bird.t) (o : Obstacle.t) (score : Z)
  : Obstacle.t * Z :=
  score_check b (Obstacle.update o) score.

(** The result of the [for] loop of lines 127-138. *)
Record LoopResult : Type := mkLoop {
  loop_obstacles : list Obstacle.t;
  loop_score : Z;
  loop_collision : bool;
  loop_steps : list Step
}.

(** The loop runs over a snapshot of the group; [break] leaves the rest
    of the snapshot untouched. *)
Fixpoint obstacle_loop (b : Bird.t) (snapshot : list Obstacle.t) (score : Z)
  : LoopResult :=
  match snapshot with
  | [] => mkLoop [] score false []
  | o :: rest =>
      let '(o', score') := advance_and_score b o score in
      if collides b o' then
        mkLoop (o' :: rest) score' true
               [ObstacleUpdate; ScoreCheck; CollideTest]
      else
        let r := obstacle_loop b rest score' in
        mkLoop (remove_check o' :: loop_obstacles r) (loop_score r)
               (loop_collision r)
               ([ObstacleUpdate; ScoreCheck; CollideTest; RemoveCheck]
                  ++ loop_steps r)
  end.

(** The [for] loop on the state of the game. *)
Definition run_loop (g : Game) : LoopResult :=
  obstacle_loop (bird g) (obstacles g) (score g).

(** Lines 126-138: afterwards the group holds the sprites still alive. *)
Definition after_loop (g : Game) : Game :=
  mkGame (bird g) (filter Obstacle.alive (loop_obstacles (run_loop g)))
         (loop_score (run_loop g)) (running g) (timer g).

Definition obstacles_phase (g : Game) : Game * bool * list Step :=
  (after_loop g, loop_collision (run_loop g), loop_steps (run_loop g)).

(** Lines 141-151. *)
Definition reset (g : Game) : Game :=
  mkGame (Bird.__init__ (screen_width / 2) (screen_height / 2)) [] 0
         (running g) obstacle_interval.

Definition reset_steps : list Step :=
  [GameOverScreen; GroupsEmpty; SetTimer 0; SetTimer obstacle_interval;
   NewBird; ScoreReset].

Definition resolve (g : Game) (collision : bool) : Game * list Step :=
  if collision then (reset g, reset_steps) else (g, []).

(** Lines 153-166: the frame is drawn, and the bird moves in between. *)
Definition render (g : Game) : Game * list Step :=
  (mkGame (Bird.update (bird g)) (obstacles g) (score g) (running g)
          (timer g),
   [ScreenFill] ++ map (fun _ => ObstacleDraw) (obstacles g)
     ++ [BirdUpdate; BirdDraw; ScoreDraw; DisplayFlip]).

(** One pass of the body of [while running]. *)
Definition tick (events : list Event) (g : Game) : Game * list Step :=
  let g1 := poll_events events g in
  let '(g2, collision, steps2) := obstacles_phase g1 in
  let '(g3, steps3) := resolve g2 collision in
  let '(g4, steps4) := render g3 in
  (g4, [ClockTick; EventGet] ++ steps2 ++ steps3 ++ steps4).

(** The loop, given the events each pass finds in the queue; it is left
    when [running] is false at the top of a pass. *)
Fixpoint main_loop (queue : list (list Event)) (g : Game) : Game :=
  match queue with
  | [] => g
  | events :: later =>
      if running g then main_loop later (fst (tick events g)) else g
  end.

Definition main (queue : list (list Event)) : Game := main_loop queue start.

(** ** The calls a bird can receive *)

Inductive BirdCall : Type := Flap | Advance.

Definition bird_call (b : Bird.t) (c : BirdCall) : Bird.t :=
  match c with
  | Flap => Bird.move_upwards b
  | Advance => Bird.update b
  end.

(** The bird after any sequence of calls on a freshly built one. *)
Definition bird_after (x y : Z) (calls : list BirdCall) : Bird.t :=
  fold_left bird_call calls (Bird.__init__ x y).

Definition on_screen (b : Bird.t) : Prop :=
  - 100 <= Rect.top (Bird.rect b)
  /\ Rect.bottom (Bird.rect b) <= screen_height.

Definition bird_sized (b : Bird.t) : Prop :=
  Rect.w (Bird.rect b) = 100 /\ Rect.h (Bird.rect b) = 100
  /\ Rect.x (Bird.rect b) = 450.

(** ** Free flight *)

(** [n] calls of [update] in a row. *)
Definition flight (n : nat) (b : Bird.t) : Bird.t := Nat.iter n Bird.update b.

(** The next [update] moves the bird without touching the ceiling limit
    or the floor: neither branch of lines 34-38 is taken. *)
Definition untouched (b : Bird.t) : bool :=
  negb (Rect.top (Bird.rect (Bird.fall b)) <=? -100)
  && negb (Rect.bottom (Bird.rect (Bird.fall b)) >=? screen_height).

(** The first [n] calls of [update] all move the bird freely. *)
Fixpoint free_flight (n : nat) (b : Bird.t) : bool :=
  match n with
  | O => true
  | S k => untouched b && free_flight k (Bird.update b)
  end.

(** A bird of the program's size with its top edge at [y0], just after
    the impulse. *)
Definition launched (y0 : Z) (v0 : float) : Bird.t :=
  Bird.move_upwards (Bird.mk (Rect.mk 450 y0 100 100) v0).

Definition height (b : Bird.t) : Z := Rect.y (Bird.rect b).

(** The heights [lo], [lo + 1], ..., [lo + n - 1]. *)
Definition heights_from (lo : Z) (n : nat) : list Z :=
  map (fun k => lo + Z.of_nat k) (seq 0 n).

(** The heights after 1, 2, ..., [n] calls of [update]. *)
Fixpoint trajectory (n : nat) (b : Bird.t) : list Z :=
  match n with
  | O => []
  | S k => height (Bird.update b) :: trajectory k (Bird.update b)
  end.

(** What a launch from [y0] does over 53 calls of [update]: it meets no
    limit, is 15 higher after the 50th call, back at [y0] after the 53rd
    and above [y0] after each of the first 52. *)
Definition launch_profile (y0 : Z) : bool :=
  let b := launched y0 0%float in
  let heights := trajectory 53 b in
  free_flight 53 b
  && (nth 49 heights 0 =? y0 - 15)
  && (nth 52 heights 0 =? y0)
  && forallb (fun y => y <? y0) (firstn 52 heights).

(** ** Obstacles on their way *)

(** [n] calls of [update] in a row. *)
Definition advance (n : nat) (o : Obstacle.t) : Obstacle.t :=
  Nat.iter n Obstacle.update o.

(** The obstacle that the timer event puts into the group (line 124). *)
Definition spawn (drawn : Z) : Obstacle.t :=
  group_add (Obstacle.__init__ screen_width gap_size drawn
                               Obstacle.default_width).

Definition heights_fill_screen (o : Obstacle.t) : Prop :=
  Obstacle.top_height o + Obstacle.gap_size o + Obstacle.bottom_height o
  = screen_height.

(** The two rectangles of an obstacle stand at the same [x] with the same
    width. *)
Definition aligned (o : Obstacle.t) : Prop :=
  Rect.x (Obstacle.top_rect o) = Rect.x (Obstacle.bottom_rect o)
  /\ Rect.w (Obstacle.top_rect o) = Rect.w (Obstacle.bottom_rect o).


(** ** What the events of a pass amount to *)

Definition is_quit (e : Event) : bool :=
  match e with QUIT => true | _ => false end.

Definition is_flap (e : Event) : bool :=
  match e with KEYDOWN K_SPACE => true | _ => false end.

(** The numbers drawn for the obstacles that the timer events of a pass
    create, in the order of the events. *)
Definition draws (events : list Event) : list Z :=
  flat_map (fun e => match e with OBSTACLE_TIMER d => [d] | _ => [] end)
           events.

(** The obstacles of a list on which the point has not been counted. *)
Definition unscored (l : list Obstacle.t) : list Obstacle.t :=
  filter (fun o => negb (Obstacle.scored o)) l.

(** The number of timer events in all the passes of a queue. *)
Definition timer_events (queue : list (list Event)) : nat :=
  length (flat_map draws queue).

(** ** Text placed on the screen *)

(** Line 90 of [game_over_screen]: where the text is blitted, given the
    size of the rendered text. *)
Definition game_over_position (text_width text_height : Z) : Z * Z :=
  (screen_width / 2 - text_width / 2, screen_height / 2 - text_height / 2).

(** Line 164: where the score is blitted, given the width of its text. *)
Definition score_position (text_width : Z) : Z * Z :=
  (screen_width / 2 - text_width / 2, 20).


(** ** The update after a flap *)

(** Where the [update] that follows a flap at height [y] is expected to
    leave the bird: 5 higher, or 4 higher above [y = 5], and not above
    the upper limit; and the floor is not touched. *)
Definition flap_rise_checked (y : Z) : bool :=
  let b := launched y 0%float in
  (height (Bird.update b)
   =? (if 5 <=? y then y - 5 else Z.max (- 100) (y - 4)))
  && negb (Rect.bottom (Bird.rect (Bird.fall b)) >=? screen_height).


(** ** The first pass in which an obstacle is behind the bird *)

(** The [update] of this pass takes the right edge of [o] to the left of
    the bird's left edge, and it was not there before. *)
Definition crosses (b : Bird.t) (o : Obstacle.t) : bool :=
  negb (passed b o) && passed b (Obstacle.update o).

(** The obstacles of the snapshot that the [for] loop gets to: all of
    them, or those up to and including the first that hits the bird. *)
Fixpoint reached (b : Bird.t) (snapshot : list Obstacle.t)
  : list Obstacle.t :=
  match snapshot with
  | [] => []
  | o :: rest =>
      o :: (if collides b (Obstacle.update o) then [] else reached b rest)
  end.

(** A player's run of [n] passes: the timer fires in the first pass,
    with the given draw, and the space bar is pressed in every 53rd pass
    after it. *)
Definition steady_queue (drawn : Z) (n : nat) : list (list Event) :=
  map (fun k => (if (k =? 0)%nat then [OBSTACLE_TIMER drawn] else [])
                ++ (if ((k mod 53 =? 0) && negb (k =? 0))%nat
                    then [KEYDOWN K_SPACE] else []))
      (seq 0 n).

(** ** The pass as the specification orders it *)

(** Lines 129-131 for every obstacle of a list. *)
Fixpoint score_all (b : Bird.t) (l : list Obstacle.t) (score : Z)
  : list Obstacle.t * Z :=
  match l with
  | [] => ([], score)
  | o :: rest =>
      let '(o', score') := score_check b o score in
      let '(rest', score'') := score_all b rest score' in
      (o' :: rest', score'')
  end.

(** The specification's order of a pass: the input events; then all
    obstacles advanced and the bird's physics advanced; then scoring and
    the collision tests; then, on a hit, the reset; then the frame, which
    changes nothing more. *)
Definition claimed_tick (events : list Event) (g : Game) : Game :=
  let g1 := poll_events events g in
  let moved := map Obstacle.update (obstacles g1) in
  let b := Bird.update (bird g1) in
  let scored := score_all b moved (score g1) in
  let tested :=
    mkGame b (filter Obstacle.alive (map remove_check (fst scored)))
           (snd scored) (running g1) (timer g1) in
  if existsb (collides b) moved then reset tested else tested.


(** ** What the flag of an obstacle records *)

(** The flag is set exactly when the right edge is left of 450, the left
    edge of the bird. *)
Definition flag_matches (o : Obstacle.t) : Prop :=
  Obstacle.scored o
  = (Rect.right (Obstacle.top_rect o) <? 450).

(** The obstacle is 100 wide and stands where [k] calls of [update] take
    it from the right edge of the screen. *)
Definition on_track (o : Obstacle.t) : Prop :=
  exists k : nat,
    Rect.x (Obstacle.top_rect o) = screen_width - hspeed * Z.of_nat k
    /\ Rect.w (Obstacle.top_rect o) = 100.


(** * Properties *)

(** Unfolds the accessors of rectangles, birds and obstacles down to the
    record fields, leaving the arithmetic alone. *)
Ltac rect_simpl :=
  unfold Rect.left, Rect.right, Rect.top, Rect.bottom, Rect.set_top,
    Rect.set_bottom, Rect.set_x, Rect.set_y, Rect.set_topleft in *;
  cbn [Rect.x Rect.y Rect.w Rect.h Bird.rect Bird.velocity] in *.

(** ** The bird *)

Lemma bird_sized_init : forall x y, bird_sized (Bird.__init__ x y).
Proof. intros x y. repeat split. Qed.

Lemma bird_sized_move_upwards :
  forall b, bird_sized b -> bird_sized (Bird.move_upwards b).
Proof. intros b H. exact H. Qed.

Lemma bird_sized_fall : forall b, bird_sized b -> bird_sized (Bird.fall b).
Proof. intros b H. exact H. Qed.

Lemma bird_sized_keep_on_screen :
  forall b, bird_sized b -> bird_sized (Bird.keep_on_screen b).
Proof.
  intros b H. unfold Bird.keep_on_screen.
  destruct (Rect.top (Bird.rect b) <=? -100);
    [exact H | destruct (Rect.bottom (Bird.rect b) >=? screen_height); exact H].
Qed.

Lemma bird_sized_update : forall b, bird_sized b -> bird_sized (Bird.update b).
Proof.
  intros b H. apply bird_sized_keep_on_screen, bird_sized_fall, H.
Qed.

Lemma bird_sized_after : forall x y calls, bird_sized (bird_after x y calls).
Proof.
  intros x y calls. unfold bird_after.
  generalize (bird_sized_init x y). generalize (Bird.__init__ x y).
  induction calls as [|c calls IH]; intros b Hb; simpl; [exact Hb|].
  apply IH. destruct c; [apply bird_sized_move_upwards | apply bird_sized_update];
    exact Hb.
Qed.

Lemma keep_on_screen_bounds :
  forall b, Rect.h (Bird.rect b) = 100 -> on_screen (Bird.keep_on_screen b).
Proof.
  intros b Hh. unfold on_screen, Bird.keep_on_screen.
  destruct (Rect.top (Bird.rect b) <=? -100) eqn:Htop.
  - rect_simpl. unfold screen_height, screen_width. lia.
  - rewrite Z.geb_leb.
    destruct (screen_height <=? Rect.bottom (Bird.rect b)) eqn:Hbot.
    + rect_simpl. unfold screen_height, screen_width. lia.
    + apply Z.leb_gt in Htop. apply Z.leb_gt in Hbot. lia.
Qed.

(** C2: whatever calls the bird has received since it was built, after a
    call of [update] its top edge is not above -100 and its bottom edge is
    not below [screen_height]. *)
Theorem bird_update_stays_on_screen :
  forall (x y : Z) (calls : list BirdCall),
    - 100 <= Rect.top (Bird.rect (Bird.update (bird_after x y calls)))
    /\ Rect.bottom (Bird.rect (Bird.update (bird_after x y calls)))
       <= screen_height.
Proof.
  intros x y calls. apply keep_on_screen_bounds.
  destruct (bird_sized_fall _ (bird_sized_after x y calls)) as (_ & Hh & _).
  exact Hh.
Qed.

(** C10: the constructor does not depend on its [x] and [y]; the bird it
    builds is centred on the screen with velocity -5, so the bird of the
    start of [main] and the bird of a reset are the same. *)
Theorem bird_constructor_ignores_position :
  forall (x y x' y' : Z) (g : Game),
    Bird.__init__ x y = Bird.__init__ x' y'
    /\ Rect.centerx (Bird.rect (Bird.__init__ x y)) = screen_width / 2
    /\ Rect.centery (Bird.rect (Bird.__init__ x y)) = screen_height / 2
    /\ Bird.velocity (Bird.__init__ x y) = (-5)%float
    /\ bird (reset g) = bird start.
Proof. intros. repeat split. Qed.

(** The bird of the start of the game, left to fall: its 99th [update]
    takes the bottom edge to 1005, so it is put back on the floor and the
    velocity is turned round. *)
Example bird_falls_to_floor :
  let b := bird_after 500 500 (repeat Advance 98) in
  Rect.bottom (Bird.rect (Bird.fall b)) = 1005
  /\ Rect.bottom (Bird.rect (Bird.update b)) = screen_height
  /\ Bird.velocity (Bird.update b) = (- (Bird.velocity b + 0.2) * 0.75)%float.
Proof. vm_compute. repeat split. Qed.

(** *** Launches *)

Lemma flight_succ_r :
  forall n b, flight (S n) b = flight n (Bird.update b).
Proof. intros n b. unfold flight. apply Nat.iter_succ_r. Qed.

Lemma trajectory_length : forall n b, length (trajectory n b) = n.
Proof.
  induction n as [|n IH]; intros b; simpl; [reflexivity|].
  now rewrite IH.
Qed.

Lemma trajectory_nth :
  forall n m b d, (n < m)%nat ->
    nth n (trajectory m b) d = height (flight (S n) b).
Proof.
  induction n as [|n IH]; intros m b d Hlt.
  - destruct m as [|m]; [lia|]. reflexivity.
  - destruct m as [|m]; [lia|]. simpl nth.
    rewrite IH by lia. now rewrite (flight_succ_r (S n)).
Qed.

Lemma heights_from_In :
  forall lo n z, lo <= z < lo + Z.of_nat n -> In z (heights_from lo n).
Proof.
  intros lo n z Hz. unfold heights_from. apply in_map_iff.
  exists (Z.to_nat (z - lo)). split; [lia|]. apply in_seq. lia.
Qed.

Lemma nth_In_firstn :
  forall (l : list Z) (k n : nat) (d : Z),
    (n < k)%nat -> (n < length l)%nat -> In (nth n l d) (firstn k l).
Proof.
  induction l as [|a l IH]; intros k n d Hk Hl; simpl in Hl; [lia|].
  destruct k as [|k]; [lia|]. destruct n as [|n]; simpl.
  - now left.
  - right. apply IH; lia.
Qed.

Lemma launched_velocity : forall y0 v0, launched y0 v0 = launched y0 0%float.
Proof. reflexivity. Qed.

Lemma launch_profile_checked :
  forallb launch_profile (heights_from 70 830) = true.
Proof. vm_compute. reflexivity. Qed.

(** C4, as the program has it: launched with velocity -5 from a height
    between 70 and 899 (the flight then meets neither limit and stays at
    non-negative coordinates), the bird is 15 above its initial height
    after 50 calls of [update]; it is back at exactly its initial height
    after 53 calls, and not before. *)
Theorem launch_returns_after_53_updates :
  forall (y0 : Z) (v0 : float),
    70 <= y0 <= 899 ->
    let b := launched y0 v0 in
    free_flight 53 b = true
    /\ height (flight 50 b) = y0 - 15
    /\ height (flight 53 b) = y0
    /\ (forall n, (0 < n < 53)%nat -> height (flight n b) < y0).
Proof.
  intros y0 v0 Hy b. unfold b. rewrite launched_velocity.
  pose proof launch_profile_checked as Hall.
  rewrite forallb_forall in Hall.
  specialize (Hall y0 (heights_from_In 70 830 y0 ltac:(lia))).
  unfold launch_profile in Hall.
  apply andb_prop in Hall as [Hall Hbefore].
  apply andb_prop in Hall as [Hall H53].
  apply andb_prop in Hall as [Hfree H50].
  apply Z.eqb_eq in H50, H53.
  rewrite trajectory_nth in H50, H53 by lia.
  repeat split; try assumption.
  intros n Hn. rewrite forallb_forall in Hbefore.
  destruct n as [|n]; [lia|].
  rewrite <- (trajectory_nth n 53 _ 0) by lia.
  apply Z.ltb_lt, Hbefore, nth_In_firstn; [lia|].
  rewrite trajectory_length. lia.
Qed.

Lemma launch_returns_after_53_updates_witness :
  70 <= 450 <= 899
  /\ height (flight 53 (launched 450 (-5)%float)) = 450.
Proof.
  split; [lia|].
  apply (launch_returns_after_53_updates 450 (-5)%float). lia.
Defined.

(** C4, as the specification states it, fails for the bird of the start
    of the game: 50 free calls of [update] after the impulse leave it at 435,
    not at 450. *)
Lemma launch_not_back_after_50_updates :
  launched 450 (-5)%float = Bird.move_upwards (Bird.__init__ 500 500)
  /\ free_flight 50 (launched 450 (-5)%float) = true
  /\ height (launched 450 (-5)%float) = 450
  /\ height (flight 50 (launched 450 (-5)%float)) = 435
  /\ height (flight 50 (launched 450 (-5)%float))
     <> height (launched 450 (-5)%float).
Proof. repeat split. vm_compute. discriminate. Qed.

(** ** Obstacles *)

Lemma update_fields :
  forall o,
    Obstacle.gap_size (Obstacle.update o) = Obstacle.gap_size o
    /\ Obstacle.top_height (Obstacle.update o) = Obstacle.top_height o
    /\ Obstacle.bottom_height (Obstacle.update o) = Obstacle.bottom_height o
    /\ Obstacle.scored (Obstacle.update o) = Obstacle.scored o
    /\ Obstacle.top_rect (Obstacle.update o)
       = Rect.set_x (Obstacle.top_rect o)
                    (Rect.x (Obstacle.top_rect o) - hspeed)
    /\ Obstacle.bottom_rect (Obstacle.update o)
       = Rect.set_x (Obstacle.bottom_rect o)
                    (Rect.x (Obstacle.bottom_rect o) - hspeed).
Proof.
  intros o. unfold Obstacle.update.
  destruct (Rect.right (Obstacle.top_rect (Obstacle.move_left o)) <? 0);
    repeat split.
Qed.

Lemma update_alive :
  forall o,
    Obstacle.alive (Obstacle.update o)
    = Obstacle.alive o
      && negb (Rect.right (Obstacle.top_rect (Obstacle.update o)) <? 0).
Proof.
  intros o. unfold Obstacle.update.
  destruct (Rect.right (Obstacle.top_rect (Obstacle.move_left o)) <? 0) eqn:E.
  - cbn [Obstacle.alive Obstacle.kill Obstacle.top_rect]. rewrite E.
    now rewrite andb_false_r.
  - rewrite E. cbn [Obstacle.alive Obstacle.move_left]. now rewrite andb_true_r.
Qed.

Lemma advance_succ :
  forall n o, advance (S n) o = Obstacle.update (advance n o).
Proof. reflexivity. Qed.

Lemma heights_fill_screen_update :
  forall o, heights_fill_screen o -> heights_fill_screen (Obstacle.update o).
Proof.
  intros o H. unfold heights_fill_screen in *.
  destruct (update_fields o) as (-> & -> & -> & _). exact H.
Qed.

Lemma aligned_update : forall o, aligned o -> aligned (Obstacle.update o).
Proof.
  intros o [Hx Hw]. unfold aligned.
  destruct (update_fields o) as (_ & _ & _ & _ & -> & ->).
  rect_simpl. split; [now rewrite Hx | exact Hw].
Qed.

Lemma aligned_init :
  forall x gap drawn width, aligned (Obstacle.__init__ x gap drawn width).
Proof. intros. split; reflexivity. Qed.

Lemma aligned_advance :
  forall n x gap drawn width,
    aligned (advance n (Obstacle.__init__ x gap drawn width)).
Proof.
  induction n as [|n IH]; intros x gap drawn width.
  - apply aligned_init.
  - rewrite advance_succ. apply aligned_update, IH.
Qed.

(** C5: an obstacle built with a top height drawn from the range has
    [top_height + gap_size + bottom_height = screen_height], and it still
    has after any number of calls of [update]. *)
Theorem obstacle_heights_fill_screen :
  forall (x gap drawn width : Z) (n : nat),
    Obstacle.in_height_range drawn ->
    let o := advance n (Obstacle.__init__ x gap drawn width) in
    Obstacle.top_height o + Obstacle.gap_size o + Obstacle.bottom_height o
    = screen_height.
Proof.
  intros x gap drawn width n _. induction n as [|n IH].
  - change (heights_fill_screen (Obstacle.__init__ x gap drawn width)).
    unfold heights_fill_screen, Obstacle.__init__.
    cbn [Obstacle.top_height Obstacle.gap_size Obstacle.bottom_height]. lia.
  - cbn zeta in *. rewrite advance_succ.
    apply heights_fill_screen_update, IH.
Qed.

Lemma obstacle_heights_fill_screen_witness :
  Obstacle.in_height_range 300
  /\ (let o := advance 5 (Obstacle.__init__ 1000 400 300 100) in
      Obstacle.top_height o + Obstacle.gap_size o + Obstacle.bottom_height o
      = screen_height).
Proof.
  split.
  - unfold Obstacle.in_height_range. simpl. lia.
  - apply (obstacle_heights_fill_screen 1000 400 300 100 5).
    unfold Obstacle.in_height_range. simpl. lia.
Defined.

(** C9: at construction and after any number of calls of [update] the two
    rectangles of an obstacle have the same [x] and the same right edge,
    so the scoring test and the removal test give the same answer on
    either rectangle. *)
Theorem obstacle_rectangles_move_together :
  forall (x gap drawn width : Z) (n : nat) (b : Bird.t),
    let o := advance n (Obstacle.__init__ x gap drawn width) in
    Rect.x (Obstacle.top_rect o) = Rect.x (Obstacle.bottom_rect o)
    /\ Rect.right (Obstacle.top_rect o) = Rect.right (Obstacle.bottom_rect o)
    /\ (Rect.right (Obstacle.top_rect o) <? Rect.left (Bird.rect b))
       = (Rect.right (Obstacle.bottom_rect o) <? Rect.left (Bird.rect b))
    /\ (Rect.right (Obstacle.top_rect o) <? 0)
       = (Rect.right (Obstacle.bottom_rect o) <? 0).
Proof.
  intros x gap drawn width n b o.
  destruct (aligned_advance n x gap drawn width) as [Hx Hw]. fold o in Hx, Hw.
  assert (Hr : Rect.right (Obstacle.top_rect o)
               = Rect.right (Obstacle.bottom_rect o))
    by (unfold Rect.right; now rewrite Hx, Hw).
  repeat split; [exact Hx | exact Hr | now rewrite Hr | now rewrite Hr].
Qed.

Lemma advance_top_rect_x :
  forall n o,
    Rect.x (Obstacle.top_rect (advance n o))
    = Rect.x (Obstacle.top_rect o) - hspeed * Z.of_nat n
    /\ Rect.w (Obstacle.top_rect (advance n o)) = Rect.w (Obstacle.top_rect o).
Proof.
  induction n as [|n IH]; intros o.
  - change (advance 0 o) with o. split; [lia | reflexivity].
  - rewrite advance_succ. destruct (IH o) as [Hx Hw].
    destruct (update_fields (advance n o)) as (_ & _ & _ & _ & -> & _).
    rect_simpl. split; [lia | exact Hw].
Qed.

Lemma spawn_top_rect_right :
  forall drawn n,
    Rect.right (Obstacle.top_rect (advance n (spawn drawn)))
    = screen_width + 100 - 3 * Z.of_nat n.
Proof.
  intros drawn n. unfold Rect.right.
  destruct (advance_top_rect_x n (spawn drawn)) as [-> ->].
  unfold spawn, group_add, Obstacle.__init__, get_rect_topleft, hspeed,
    Obstacle.default_width.
  cbn [Obstacle.top_rect]. rect_simpl. lia.
Qed.

Lemma spawn_alive_before :
  forall drawn n,
    (n < 367)%nat -> Obstacle.alive (advance n (spawn drawn)) = true.
Proof.
  intros drawn n. induction n as [|n IH]; intros Hn.
  - reflexivity.
  - rewrite advance_succ, update_alive, IH by lia.
    rewrite <- advance_succ, spawn_top_rect_right.
    unfold screen_width. rewrite andb_true_l. apply negb_true_iff, Z.ltb_ge. lia.
Qed.

(** C8: [update] takes [hspeed] = 3 off the [x] of both rectangles, and an
    obstacle of the group leaves it in the call after which the right edge
    of its top rectangle is below 0; the obstacle spawned at
    [x = screen_width = 1000] with width 100 is still in the group after
    each of its first 366 calls and leaves it in the 367th. *)
Theorem obstacle_leaves_after_367_updates :
  forall (o : Obstacle.t) (drawn : Z) (n : nat),
    hspeed = 3
    /\ Rect.x (Obstacle.top_rect (Obstacle.update o))
       = Rect.x (Obstacle.top_rect o) - hspeed
    /\ Rect.x (Obstacle.bottom_rect (Obstacle.update o))
       = Rect.x (Obstacle.bottom_rect o) - hspeed
    /\ Obstacle.alive (Obstacle.update o)
       = Obstacle.alive o
         && negb (Rect.right (Obstacle.top_rect (Obstacle.update o)) <? 0)
    /\ Rect.x (Obstacle.top_rect (spawn drawn)) = 1000
    /\ Rect.w (Obstacle.top_rect (spawn drawn)) = 100
    /\ Obstacle.alive (advance n (spawn drawn)) = (n <? 367)%nat.
Proof.
  intros o drawn n.
  destruct (update_fields o) as (_ & _ & _ & _ & Ht & Hb).
  split; [reflexivity|]. split; [now rewrite Ht|]. split; [now rewrite Hb|].
  split; [apply update_alive|]. split; [reflexivity|]. split; [reflexivity|].
  destruct (n <? 367)%nat eqn:Hn.
  - apply Nat.ltb_lt in Hn. now apply spawn_alive_before.
  - apply Nat.ltb_ge in Hn. induction Hn as [|m Hm IH].
    + rewrite advance_succ, update_alive, <- advance_succ.
      rewrite spawn_top_rect_right, spawn_alive_before by lia. reflexivity.
    + rewrite advance_succ, update_alive, IH. reflexivity.
Qed.

(** ** Scoring *)

Lemma score_check_rects :
  forall b o s,
    Obstacle.top_rect (fst (score_check b o s)) = Obstacle.top_rect o
    /\ Obstacle.bottom_rect (fst (score_check b o s)) = Obstacle.bottom_rect o
    /\ Obstacle.alive (fst (score_check b o s)) = Obstacle.alive o.
Proof.
  intros b o s. unfold score_check.
  destruct (passed b o && negb (Obstacle.scored o)); repeat split.
Qed.

(** ** The loop *)

(** A pass, written out. *)
Lemma tick_eq :
  forall events g,
    let g1 := poll_events events g in
    let g3 := fst (resolve (after_loop g1) (loop_collision (run_loop g1))) in
    tick events g
    = (fst (render g3),
       [ClockTick; EventGet]
         ++ loop_steps (run_loop g1)
         ++ (if loop_collision (run_loop g1) then reset_steps else [])
         ++ snd (render g3)).
Proof.
  intros events g g1 g3. unfold tick, obstacles_phase. fold g1.
  unfold g3, resolve. destruct (loop_collision (run_loop g1)); reflexivity.
Qed.

(** The test of a pass sees the bird where the previous pass left it: here
    the bird's next [update] takes it into the top rectangle, and the
    pass reports no hit. *)
Example collision_test_sees_bird_before_update :
  let b := Bird.mk (Rect.mk 450 300 100 100) (-5)%float in
  let o := group_add (Obstacle.__init__ 500 400 300 100) in
  let g := mkGame b [o] 0 true obstacle_interval in
  collides (Bird.update b) (Obstacle.update o) = true
  /\ loop_collision (run_loop (poll_events [] g)) = false
  /\ score (fst (tick [] g)) = 0
  /\ length (obstacles (fst (tick [] g))) = 1%nat.
Proof. vm_compute. repeat split. Qed.

(** ** Collision and reset *)

Lemma collides_score_check :
  forall b o s, collides b (fst (score_check b o s)) = collides b o.
Proof.
  intros b o s. unfold collides.
  destruct (score_check_rects b o s) as (-> & -> & _). reflexivity.
Qed.

(** The loop reports a hit exactly when some obstacle of the group, once
    moved, overlaps the bird. *)
Lemma obstacle_loop_collision :
  forall b snapshot s,
    loop_collision (obstacle_loop b snapshot s)
    = existsb (fun o => collides b (Obstacle.update o)) snapshot.
Proof.
  intros b snapshot. induction snapshot as [|o rest IH]; intros s.
  - reflexivity.
  - simpl. unfold advance_and_score.
    pose proof (collides_score_check b (Obstacle.update o) s) as Hc.
    destruct (score_check b (Obstacle.update o) s) as [o' s'].
    cbn [fst] in Hc. rewrite <- Hc.
    destruct (collides b o'); [reflexivity|]. apply IH.
Qed.





(** ** The game as a whole *)

(** Without a hit the loop takes every obstacle of the group through
    lines 128-131 once, in order, and the score through each of them. *)
Lemma obstacle_loop_no_hit :
  forall b snapshot s,
    loop_collision (obstacle_loop b snapshot s) = false ->
    loop_obstacles (obstacle_loop b snapshot s)
    = map (fun o => remove_check (fst (advance_and_score b o 0))) snapshot
    /\ loop_score (obstacle_loop b snapshot s)
       = fold_left (fun sc o => snd (advance_and_score b o sc)) snapshot s.
Proof.
  intros b snapshot. induction snapshot as [|o rest IH]; intros s Hc.
  - split; reflexivity.
  - simpl in *.
    assert (Hfst : fst (advance_and_score b o s)
                   = fst (advance_and_score b o 0)).
    { unfold advance_and_score, score_check.
      destruct (passed b (Obstacle.update o)
                && negb (Obstacle.scored (Obstacle.update o))); reflexivity. }
    destruct (advance_and_score b o s) as [o' s'] eqn:E.
    cbn [fst snd] in *. destruct (collides b o'); [discriminate Hc|].
    cbn [loop_collision loop_obstacles loop_score] in *.
    destruct (IH s' Hc) as [-> ->]. now rewrite Hfst.
Qed.

Section ObstacleInvariant.

Variable P : Obstacle.t -> Prop.
Hypothesis P_spawn : forall drawn, P (spawn drawn).
Hypothesis P_update : forall o, P o -> P (Obstacle.update o).
Hypothesis P_scored : forall o v, P o -> P (Obstacle.set_scored o v).
Hypothesis P_kill : forall o, P o -> P (Obstacle.kill o).

Lemma invariant_poll_events :
  forall events g,
    Forall P (obstacles g) -> Forall P (obstacles (poll_events events g)).
Proof.
  unfold poll_events. induction events as [|e events IH]; intros g Hg.
  - exact Hg.
  - simpl. apply IH. destruct e as [|[|]|drawn|]; try exact Hg.
    cbn [handle_event obstacles]. apply Forall_app. split; [exact Hg|].
    constructor; [apply P_spawn | constructor].
Qed.

Lemma invariant_obstacle_loop :
  forall b snapshot s,
    Forall P snapshot -> Forall P (loop_obstacles (obstacle_loop b snapshot s)).
Proof.
  intros b snapshot. induction snapshot as [|o rest IH]; intros s Hall.
  - constructor.
  - inversion Hall as [|? ? Ho Hrest]; subst. simpl.
    assert (Ho' : P (fst (advance_and_score b o s))).
    { unfold advance_and_score, score_check.
      destruct (passed b (Obstacle.update o)
                && negb (Obstacle.scored (Obstacle.update o)));
        cbn [fst]; [apply P_scored|]; apply P_update, Ho. }
    destruct (advance_and_score b o s) as [o' s']. cbn [fst] in Ho'.
    destruct (collides b o'); cbn [loop_obstacles].
    + constructor; assumption.
    + constructor; [|apply IH, Hrest].
      unfold remove_check.
      destruct ((Rect.right (Obstacle.top_rect o') <? 0)
                || (Rect.right (Obstacle.bottom_rect o') <? 0));
        [apply P_kill|]; exact Ho'.
Qed.

Lemma invariant_tick :
  forall events g,
    Forall P (obstacles g) -> Forall P (obstacles (fst (tick events g))).
Proof.
  intros events g Hg. rewrite tick_eq. cbn [fst render obstacles].
  unfold resolve.
  destruct (loop_collision (run_loop (poll_events events g)));
    cbn [fst reset obstacles after_loop]; [constructor|].
  apply Forall_forall. intros o Ho. apply filter_In in Ho as [Ho _].
  revert o Ho. apply Forall_forall, invariant_obstacle_loop.
  apply invariant_poll_events, Hg.
Qed.

Lemma invariant_main :
  forall queue, Forall P (obstacles (main queue)).
Proof.
  intros queue. unfold main.
  assert (Hstart : Forall P (obstacles start)) by constructor.
  revert Hstart. generalize start.
  induction queue as [|events later IH]; intros g Hg; simpl; [exact Hg|].
  destruct (running g); [|exact Hg]. apply IH, invariant_tick, Hg.
Qed.

End ObstacleInvariant.

(** Every obstacle the game ever holds fills the height of the screen
    and has its two rectangles side by side. *)
Corollary main_obstacles_well_formed :
  forall queue,
    Forall (fun o => heights_fill_screen o /\ aligned o)
           (obstacles (main queue)).
Proof.
  apply invariant_main.
  - intros drawn. split.
    + unfold heights_fill_screen, spawn, group_add, Obstacle.__init__.
      cbn [Obstacle.top_height Obstacle.gap_size Obstacle.bottom_height]. lia.
    + split; reflexivity.
  - intros o [H1 H2]. split;
      [apply heights_fill_screen_update | apply aligned_update]; assumption.
  - intros o v H. exact H.
  - intros o H. exact H.
Qed.

(** The bird of the game is always the 100 by 100 body at [x = 450]; its
    left edge, which the scoring test reads, never moves. *)
Lemma main_bird_sized : forall queue, bird_sized (bird (main queue)).
Proof.
  intros queue. unfold main.
  assert (Hstart : bird_sized (bird start)) by apply bird_sized_init.
  revert Hstart. generalize start.
  induction queue as [|events later IH]; intros g Hg; simpl; [exact Hg|].
  destruct (running g); [|exact Hg]. apply IH.
  rewrite tick_eq. cbn [fst render bird]. apply bird_sized_update.
  unfold resolve.
  destruct (loop_collision (run_loop (poll_events events g)));
    cbn [fst reset bird after_loop]; [apply bird_sized_init|].
  clear IH. revert g Hg. unfold poll_events.
  induction events as [|e events IHe]; intros g Hg; simpl; [exact Hg|].
  apply IHe. destruct e as [|[|]| |]; exact Hg.
Qed.

(** ** Input *)

Lemma poll_events_fields :
  forall events g,
    bird (poll_events events g)
    = (if existsb is_flap events
       then Bird.move_upwards (bird g) else bird g)
    /\ obstacles (poll_events events g)
       = obstacles g ++ map spawn (draws events)
    /\ score (poll_events events g) = score g
    /\ running (poll_events events g)
       = running g && negb (existsb is_quit events)
    /\ timer (poll_events events g) = timer g.
Proof.
  unfold poll_events. induction events as [|e events IH]; intros g.
  - cbn [fold_left existsb draws flat_map map].
    now rewrite app_nil_r, andb_true_r.
  - cbn [fold_left]. destruct (IH (handle_event g e)) as (-> & -> & -> & -> & ->).
    destruct e as [|[|]|drawn|];
      cbn [handle_event bird obstacles score running timer existsb is_flap
           is_quit draws flat_map map app orb negb].
    + now rewrite andb_false_r.
    + repeat split. destruct (existsb is_flap events); reflexivity.
    + repeat split.
    + repeat split. now rewrite <- app_assoc.
    + repeat split.
Qed.

(** X1: the events of a pass come down to four things: a press of the
    space bar, however many times, sets the bird's velocity to -5 and
    leaves its position; each timer event appends one obstacle, in order;
    a quit event clears [running]; score, timer and everything else are
    left alone, and other keys and events do nothing. *)
Theorem poll_events_effect :
  forall (events : list Event) (g : Game),
    poll_events events g
    = mkGame (if existsb is_flap events
              then Bird.move_upwards (bird g) else bird g)
             (obstacles g ++ map spawn (draws events))
             (score g)
             (running g && negb (existsb is_quit events))
             (timer g).
Proof.
  intros events g.
  destruct (poll_events_fields events g) as (Hb & Ho & Hs & Hr & Ht).
  destruct (poll_events events g) as [b obs sc run tm].
  cbn [bird obstacles score running timer] in *.
  now rewrite Hb, Ho, Hs, Hr, Ht.
Qed.

Lemma main_loop_stopped :
  forall queue g, running g = false -> main_loop queue g = g.
Proof. intros [|events later] g H; simpl; [reflexivity | now rewrite H]. Qed.

Lemma tick_running :
  forall events g,
    running (fst (tick events g))
    = running g && negb (existsb is_quit events).
Proof.
  intros events g. rewrite tick_eq. cbn [fst render running].
  unfold resolve.
  destruct (loop_collision (run_loop (poll_events events g)));
    cbn [fst reset running after_loop];
    apply poll_events_fields.
Qed.

(** X2: a quit event does not cut the pass short: the pass that reads it
    runs to its end, and it is the last one; whatever is queued for later
    passes is never read. *)
Theorem quit_ends_loop_after_pass :
  forall (events : list Event) (later : list (list Event)) (g : Game),
    running g = true ->
    In QUIT events ->
    main_loop (events :: later) g = fst (tick events g)
    /\ running (fst (tick events g)) = false.
Proof.
  intros events later g Hrun Hq.
  assert (Hstop : running (fst (tick events g)) = false).
  { rewrite tick_running, Hrun. simpl. apply negb_false_iff.
    apply existsb_exists. exists QUIT. split; [exact Hq | reflexivity]. }
  split; [|exact Hstop].
  cbn [main_loop]. rewrite Hrun. apply main_loop_stopped, Hstop.
Qed.

Lemma quit_ends_loop_after_pass_witness :
  running start = true
  /\ main_loop ([KEYDOWN K_SPACE; QUIT] :: [[OBSTACLE_TIMER 300]; []]) start
     = fst (tick [KEYDOWN K_SPACE; QUIT] start).
Proof.
  split; [reflexivity|].
  apply (quit_ends_loop_after_pass [KEYDOWN K_SPACE; QUIT]
           [[OBSTACLE_TIMER 300]; []] start).
  - reflexivity.
  - simpl. right. now left.
Defined.

(** ** Where the obstacles are *)

Lemma advance_rects :
  forall n o,
    Rect.x (Obstacle.top_rect (advance n o))
    = Rect.x (Obstacle.top_rect o) - hspeed * Z.of_nat n
    /\ Rect.x (Obstacle.bottom_rect (advance n o))
       = Rect.x (Obstacle.bottom_rect o) - hspeed * Z.of_nat n
    /\ Rect.y (Obstacle.top_rect (advance n o)) = Rect.y (Obstacle.top_rect o)
    /\ Rect.w (Obstacle.top_rect (advance n o)) = Rect.w (Obstacle.top_rect o)
    /\ Rect.h (Obstacle.top_rect (advance n o)) = Rect.h (Obstacle.top_rect o)
    /\ Rect.y (Obstacle.bottom_rect (advance n o))
       = Rect.y (Obstacle.bottom_rect o)
    /\ Rect.w (Obstacle.bottom_rect (advance n o))
       = Rect.w (Obstacle.bottom_rect o)
    /\ Rect.h (Obstacle.bottom_rect (advance n o))
       = Rect.h (Obstacle.bottom_rect o).
Proof.
  induction n as [|n IH]; intros o.
  - change (advance 0 o) with o. repeat split; lia.
  - rewrite advance_succ.
    destruct (IH o) as (H1 & H2 & H3 & H4 & H5 & H6 & H7 & H8).
    destruct (update_fields (advance n o)) as (_ & _ & _ & _ & -> & ->).
    rect_simpl. repeat split; try assumption; lia.
Qed.

(** X3: the obstacle built from a draw of the range keeps, wherever it has
    moved to, its top rectangle from the top of the screen down to the
    drawn height and its bottom rectangle from [gap_size] below that down
    to the bottom of the screen; both are between 100 and 500 high, and
    the opening between them is [gap_size] = 400, four times the bird. *)
Theorem obstacle_gap_geometry :
  forall (x width drawn : Z) (n : nat),
    Obstacle.in_height_range drawn ->
    let o := advance n (Obstacle.__init__ x gap_size drawn width) in
    Rect.top (Obstacle.top_rect o) = 0
    /\ Rect.bottom (Obstacle.top_rect o) = drawn
    /\ Rect.top (Obstacle.bottom_rect o) = drawn + gap_size
    /\ Rect.bottom (Obstacle.bottom_rect o) = screen_height
    /\ 100 <= Rect.h (Obstacle.top_rect o) <= 500
    /\ 100 <= Rect.h (Obstacle.bottom_rect o) <= 500
    /\ Rect.top (Obstacle.bottom_rect o) - Rect.bottom (Obstacle.top_rect o)
       = 400.
Proof.
  intros x width drawn n [Hlo Hhi] o. simpl in Hlo, Hhi.
  destruct (advance_rects n (Obstacle.__init__ x gap_size drawn width))
    as (_ & _ & H3 & _ & H5 & H6 & _ & H8).
  fold o in H3, H5, H6, H8. unfold Rect.top, Rect.bottom.
  rewrite H3, H5, H6, H8.
  unfold Obstacle.__init__, get_rect_topleft, Rect.set_topleft.
  cbn [Obstacle.top_rect Obstacle.bottom_rect Rect.y Rect.h].
  unfold gap_size, screen_height, screen_width. lia.
Qed.

Lemma obstacle_gap_geometry_witness :
  Obstacle.in_height_range 100
  /\ Rect.top (Obstacle.bottom_rect
                 (advance 9 (Obstacle.__init__ 1000 gap_size 100 100))) = 500.
Proof.
  assert (H : Obstacle.in_height_range 100)
    by (unfold Obstacle.in_height_range; simpl; lia).
  split; [exact H|].
  exact (proj1 (proj2 (proj2 (obstacle_gap_geometry 1000 100 100 9 H)))).
Defined.

Lemma aligned_advance_from :
  forall n o, aligned o -> aligned (advance n o).
Proof.
  induction n as [|n IH]; intros o H; [exact H|].
  rewrite advance_succ. apply aligned_update, IH, H.
Qed.

(** X4: an obstacle whose right edge is left of the bird's left edge, as
    it is when its point is counted, stays so and cannot hit the bird in
    any later pass, wherever the bird flies. *)
Theorem passed_obstacle_cannot_hit :
  forall (b b' : Bird.t) (o : Obstacle.t) (n : nat),
    bird_sized b -> bird_sized b' ->
    aligned o ->
    0 <= Rect.w (Obstacle.top_rect o) ->
    passed b o = true ->
    passed b' (advance n o) = true /\ collides b' (advance n o) = false.
Proof.
  intros b b' o n (Hbw & Hbh & Hbx) (Hw' & Hh' & Hx') Hal Hw Hp.
  destruct (aligned_advance_from n o Hal) as [Hax Haw].
  destruct (advance_rects n o) as (H1 & _ & _ & H4 & _).
  unfold passed in *. apply Z.ltb_lt in Hp.
  unfold hspeed in H1. rect_simpl.
  split; [apply Z.ltb_lt; lia|].
  unfold collides, Rect.colliderect.
  rewrite <- Hax, <- Haw, Hw', Hx'.
  assert (Hmax : Z.max (Rect.x (Obstacle.top_rect (advance n o)))
                       (Rect.x (Obstacle.top_rect (advance n o))
                        + Rect.w (Obstacle.top_rect (advance n o)))
                 <= 450) by lia.
  assert (Hoff : (Z.min 450 (450 + 100)
                  <? Z.max (Rect.x (Obstacle.top_rect (advance n o)))
                           (Rect.x (Obstacle.top_rect (advance n o))
                            + Rect.w (Obstacle.top_rect (advance n o))))
                 = false) by (apply Z.ltb_ge; lia).
  rewrite Hoff. cbn [andb].
  destruct ((100 =? 0) || (Rect.h (Bird.rect b') =? 0)
            || (Rect.w (Obstacle.top_rect (advance n o)) =? 0)
            || (Rect.h (Obstacle.top_rect (advance n o)) =? 0));
    destruct ((100 =? 0) || (Rect.h (Bird.rect b') =? 0)
              || (Rect.w (Obstacle.top_rect (advance n o)) =? 0)
              || (Rect.h (Obstacle.bottom_rect (advance n o)) =? 0));
    reflexivity.
Qed.

Lemma passed_obstacle_cannot_hit_witness :
  let o := group_add (Obstacle.__init__ 349 gap_size 300 100) in
  passed (bird start) o = true
  /\ passed (Bird.update (bird start)) (advance 2 o) = true
  /\ collides (Bird.update (bird start)) (advance 2 o) = false.
Proof.
  intros o.
  assert (Hp : passed (bird start) o = true) by (vm_compute; reflexivity).
  split; [exact Hp|].
  apply (passed_obstacle_cannot_hit (bird start) (Bird.update (bird start))
           o 2).
  - apply bird_sized_init.
  - apply bird_sized_update, bird_sized_init.
  - split; reflexivity.
  - vm_compute. discriminate.
  - exact Hp.
Defined.

Lemma rect_eta :
  forall r : Rect.t, r = Rect.mk (Rect.x r) (Rect.y r) (Rect.w r) (Rect.h r).
Proof. intros []. reflexivity. Qed.

(** The rectangles of the timer's obstacle after [k] calls of [update]. *)
Lemma spawn_rects :
  forall drawn k,
    Obstacle.top_rect (advance k (spawn drawn))
    = Rect.mk (1000 - 3 * Z.of_nat k) 0 100 drawn
    /\ Obstacle.bottom_rect (advance k (spawn drawn))
       = Rect.mk (1000 - 3 * Z.of_nat k) (drawn + 400) 100 (600 - drawn).
Proof.
  intros drawn k.
  destruct (advance_rects k (spawn drawn))
    as (H1 & H2 & H3 & H4 & H5 & H6 & H7 & H8).
  split.
  - rewrite (rect_eta (Obstacle.top_rect _)), H1, H3, H4, H5. reflexivity.
  - rewrite (rect_eta (Obstacle.bottom_rect _)), H2, H6, H7, H8.
    unfold spawn, group_add, Obstacle.__init__, get_rect_topleft,
      Rect.set_topleft, Obstacle.default_width, hspeed, gap_size,
      screen_height, screen_width.
    cbn [Obstacle.bottom_rect Rect.x Rect.y Rect.w Rect.h].
    f_equal; lia.
Qed.

(** X5: the timer's obstacle, built from a draw of the range, hits a bird
    that is on the screen exactly in its 151st to 216th [update], and
    then exactly when the bird is not wholly inside the opening: its top
    edge above the drawn height (and below the upper limit -100), or its
    bottom edge below the opening. *)
Theorem collision_window :
  forall (b : Bird.t) (drawn : Z) (k : nat),
    bird_sized b -> on_screen b -> Obstacle.in_height_range drawn ->
    collides b (advance k (spawn drawn)) = true
    <-> (151 <= k <= 216)%nat
        /\ (- 100 < Rect.top (Bird.rect b) < drawn
            \/ drawn + gap_size < Rect.bottom (Bird.rect b)).
Proof.
  intros b drawn k (Hw & Hh & Hx) [Htop Hbot] [Hlo Hhi].
  simpl fst in Hlo. simpl snd in Hhi.
  unfold collides, Rect.colliderect.
  destruct (spawn_rects drawn k) as [-> ->].
  unfold gap_size, screen_height, screen_width in *. rect_simpl.
  rewrite Hw, Hh, Hx.
  destruct (Z.eqb_spec drawn 0) as [E|_]; [lia|].
  destruct (Z.eqb_spec (600 - drawn) 0) as [E|_]; [lia|].
  cbn [Z.eqb orb].
  rewrite orb_true_iff, !andb_true_iff, !Z.ltb_lt.
  lia.
Qed.

Lemma collision_window_witness :
  collides (bird start) (advance 151 (spawn 500)) = true
  <-> (151 <= 151 <= 216)%nat
      /\ (- 100 < Rect.top (Bird.rect (bird start)) < 500
          \/ 500 + gap_size < Rect.bottom (Bird.rect (bird start))).
Proof.
  apply (collision_window (bird start) 500 151).
  - apply bird_sized_init.
  - unfold on_screen. vm_compute. split; discriminate.
  - unfold Obstacle.in_height_range. vm_compute. split; discriminate.
Defined.

(** X6: a bird held at the upper limit, its top edge at -100, is wholly
    above the screen and no obstacle of the timer ever hits it; a bird
    lying on the floor is hit by every such obstacle, in the obstacle's
    151st [update]. *)
Theorem ceiling_is_safe_floor_is_not :
  forall (b : Bird.t) (drawn : Z) (k : nat),
    bird_sized b -> Obstacle.in_height_range drawn ->
    (Rect.top (Bird.rect b) = - 100 ->
     collides b (advance k (spawn drawn)) = false)
    /\ (Rect.bottom (Bird.rect b) = screen_height ->
        collides b (advance 151 (spawn drawn)) = true
        /\ (forall j, (j < 151)%nat ->
                      collides b (advance j (spawn drawn)) = false)).
Proof.
  intros b drawn k (Hw & Hh & Hx) [Hlo Hhi].
  simpl fst in Hlo. simpl snd in Hhi.
  assert (Hgen : forall n,
             collides b (advance n (spawn drawn))
             = (Z.min 450 (450 + 100)
                <? Z.max (1000 - 3 * Z.of_nat n) (1000 - 3 * Z.of_nat n + 100))
               && (Z.min (Rect.y (Bird.rect b)) (Rect.y (Bird.rect b) + 100)
                   <? Z.max 0 (0 + drawn))
               && (Z.min (1000 - 3 * Z.of_nat n) (1000 - 3 * Z.of_nat n + 100)
                   <? Z.max 450 (450 + 100))
               && (Z.min 0 (0 + drawn)
                   <? Z.max (Rect.y (Bird.rect b)) (Rect.y (Bird.rect b) + 100))
               || (Z.min 450 (450 + 100)
                   <? Z.max (1000 - 3 * Z.of_nat n)
                            (1000 - 3 * Z.of_nat n + 100))
                  && (Z.min (Rect.y (Bird.rect b)) (Rect.y (Bird.rect b) + 100)
                      <? Z.max (drawn + 400) (drawn + 400 + (600 - drawn)))
                  && (Z.min (1000 - 3 * Z.of_nat n)
                            (1000 - 3 * Z.of_nat n + 100)
                      <? Z.max 450 (450 + 100))
                  && (Z.min (drawn + 400) (drawn + 400 + (600 - drawn))
                      <? Z.max (Rect.y (Bird.rect b))
                               (Rect.y (Bird.rect b) + 100))).
  { intros n. unfold collides, Rect.colliderect.
    destruct (spawn_rects drawn n) as [-> ->]. rect_simpl.
    rewrite Hw, Hh, Hx.
    destruct (Z.eqb_spec drawn 0) as [E|_]; [lia|].
    destruct (Z.eqb_spec (600 - drawn) 0) as [E|_]; [lia|].
    reflexivity. }
  unfold screen_height, screen_width. rect_simpl. split.
  - intros Htop. rewrite Hgen.
    apply orb_false_iff. split; apply andb_false_iff; right;
      apply Z.ltb_ge; lia.
  - intros Hbot. split.
    + rewrite Hgen. apply orb_true_iff. right.
      rewrite !andb_true_iff, !Z.ltb_lt. lia.
    + intros j Hj. rewrite Hgen.
      apply orb_false_iff. split; apply andb_false_iff; left;
        apply andb_false_iff; right; apply Z.ltb_ge; lia.
Qed.

Lemma ceiling_is_safe_floor_is_not_witness :
  Obstacle.in_height_range 100
  /\ collides (Bird.mk (Rect.mk 450 (-100) 100 100) (-5)%float)
              (advance 180 (spawn 100)) = false.
Proof.
  assert (H : Obstacle.in_height_range 100)
    by (unfold Obstacle.in_height_range; vm_compute; split; discriminate).
  split; [exact H|].
  refine (proj1 (ceiling_is_safe_floor_is_not
                   (Bird.mk (Rect.mk 450 (-100) 100 100) (-5)%float)
                   100 180 _ H) _).
  - repeat split.
  - reflexivity.
Defined.

(** X7: the removal of lines 137-138 never has anything left to do: when
    an obstacle with its rectangles side by side reaches the test, its
    own [update] has already taken it out of the group if an edge is
    below 0, and the test leaves it as it is. *)
Theorem removal_in_loop_is_redundant :
  forall (b : Bird.t) (o : Obstacle.t) (s : Z),
    aligned o ->
    remove_check (fst (advance_and_score b o s))
    = fst (advance_and_score b o s).
Proof.
  intros b o s Hal. unfold remove_check.
  destruct (aligned_update o Hal) as [Hx Hw].
  destruct (score_check_rects b (Obstacle.update o) s) as (Ht & Hb & Ha).
  fold (advance_and_score b o s) in Ht, Hb, Ha.
  rewrite Ht, Hb.
  assert (Hr : Rect.right (Obstacle.bottom_rect (Obstacle.update o))
               = Rect.right (Obstacle.top_rect (Obstacle.update o)))
    by (unfold Rect.right; now rewrite Hx, Hw).
  rewrite Hr, orb_diag.
  destruct (Rect.right (Obstacle.top_rect (Obstacle.update o)) <? 0) eqn:E;
    [|reflexivity].
  rewrite update_alive, E, andb_false_r in Ha.
  destruct (fst (advance_and_score b o s)) as [g th bh sc tr br al].
  cbn [Obstacle.alive] in Ha. subst al. reflexivity.
Qed.

Lemma removal_in_loop_is_redundant_witness :
  remove_check (fst (advance_and_score (bird start)
                       (group_add (Obstacle.__init__ (-98) gap_size 300 100))
                       0))
  = fst (advance_and_score (bird start)
           (group_add (Obstacle.__init__ (-98) gap_size 300 100)) 0).
Proof.
  apply (removal_in_loop_is_redundant (bird start)
           (group_add (Obstacle.__init__ (-98) gap_size 300 100)) 0).
  split; reflexivity.
Defined.

(** ** The score of the game *)

Lemma passed_spawn :
  forall b drawn k,
    bird_sized b ->
    passed b (advance k (spawn drawn)) = (217 <=? k)%nat.
Proof.
  intros b drawn k (_ & _ & Hx). unfold passed.
  rewrite spawn_top_rect_right. unfold Rect.left, screen_width. rewrite Hx.
  destruct (217 <=? k)%nat eqn:E.
  - apply Nat.leb_le in E. apply Z.ltb_lt. lia.
  - apply Nat.leb_gt in E. apply Z.ltb_ge. lia.
Qed.

Lemma unscored_length_cons :
  forall o l,
    Z.of_nat (length (unscored (o :: l)))
    = (if Obstacle.scored o then 0 else 1) + Z.of_nat (length (unscored l)).
Proof.
  intros o l. unfold unscored. cbn [filter].
  destruct (Obstacle.scored o); cbn [negb length]; lia.
Qed.

Lemma unscored_filter_le :
  forall f l,
    Z.of_nat (length (unscored (filter f l)))
    <= Z.of_nat (length (unscored l)).
Proof.
  intros f l. induction l as [|o l IH]; [reflexivity|].
  cbn [filter]. destruct (f o).
  - rewrite !unscored_length_cons. lia.
  - rewrite unscored_length_cons. destruct (Obstacle.scored o); lia.
Qed.

Lemma unscored_spawned :
  forall l ds,
    Z.of_nat (length (unscored (l ++ map spawn ds)))
    = Z.of_nat (length (unscored l)) + Z.of_nat (length ds).
Proof.
  intros l ds. unfold unscored.
  rewrite filter_app, length_app, Nat2Z.inj_add. f_equal. f_equal.
  induction ds as [|d ds IH]; [reflexivity|].
  cbn [map filter spawn group_add Obstacle.__init__ Obstacle.scored negb
       length]. now rewrite <- IH.
Qed.

(** A point is counted only against an obstacle that loses its place
    among the unscored ones. *)
Lemma advance_and_score_bound :
  forall b o s,
    s <= snd (advance_and_score b o s)
    /\ snd (advance_and_score b o s)
       + (if Obstacle.scored (fst (advance_and_score b o s)) then 0 else 1)
       <= s + (if Obstacle.scored o then 0 else 1).
Proof.
  intros b o s. unfold advance_and_score, score_check.
  destruct (update_fields o) as (_ & _ & _ & Hs & _). rewrite Hs.
  destruct (passed b (Obstacle.update o)); destruct (Obstacle.scored o) eqn:E;
    cbn [andb negb fst snd Obstacle.set_scored Obstacle.scored];
    rewrite ?Hs, ?E; lia.
Qed.

Lemma remove_check_scored :
  forall o, Obstacle.scored (remove_check o) = Obstacle.scored o.
Proof.
  intros o. unfold remove_check.
  destruct ((Rect.right (Obstacle.top_rect o) <? 0)
            || (Rect.right (Obstacle.bottom_rect o) <? 0)); reflexivity.
Qed.

Lemma obstacle_loop_score_bound :
  forall b snapshot s,
    s <= loop_score (obstacle_loop b snapshot s)
    /\ loop_score (obstacle_loop b snapshot s)
       + Z.of_nat (length (unscored
                             (filter Obstacle.alive
                                (loop_obstacles (obstacle_loop b snapshot s)))))
       <= s + Z.of_nat (length (unscored snapshot)).
Proof.
  intros b snapshot. induction snapshot as [|o rest IH]; intros s.
  - cbn. lia.
  - cbn [obstacle_loop]. pose proof (advance_and_score_bound b o s) as Hstep.
    destruct (advance_and_score b o s) as [o' s']. cbn [fst snd] in Hstep.
    rewrite (unscored_length_cons o rest).
    destruct (collides b o'); cbn [loop_score loop_obstacles].
    + pose proof (unscored_filter_le Obstacle.alive (o' :: rest)) as Hle.
      rewrite unscored_length_cons in Hle. lia.
    + destruct (IH s') as [H1 H2]. split; [lia|].
      cbn [filter]. destruct (Obstacle.alive (remove_check o')).
      * rewrite unscored_length_cons, remove_check_scored. lia.
      * destruct (Obstacle.scored o'); lia.
Qed.

Lemma tick_score_bound :
  forall events g n,
    0 <= score g ->
    score g + Z.of_nat (length (unscored (obstacles g))) <= Z.of_nat n ->
    0 <= score (fst (tick events g))
    /\ score (fst (tick events g))
       + Z.of_nat (length (unscored (obstacles (fst (tick events g)))))
       <= Z.of_nat (n + length (draws events)).
Proof.
  intros events g n H0 Hn. rewrite tick_eq. cbn [fst render score obstacles].
  unfold resolve.
  destruct (loop_collision (run_loop (poll_events events g)));
    cbn [fst reset score obstacles after_loop].
  - cbn. lia.
  - unfold run_loop.
    destruct (poll_events_fields events g) as (_ & -> & -> & _).
    destruct (obstacle_loop_score_bound
                (bird (poll_events events g))
                (obstacles g ++ map spawn (draws events)) (score g))
      as [H1 H2].
    rewrite unscored_spawned in H2. lia.
Qed.

(** X9: the score is never negative and never more than the number of
    obstacles the timer has called for, over any run of the game. *)
Theorem score_bounded_by_spawned :
  forall queue : list (list Event),
    0 <= score (main queue) <= Z.of_nat (timer_events queue).
Proof.
  intros queue. unfold main.
  assert (Hgen : forall q g n,
             0 <= score g ->
             score g + Z.of_nat (length (unscored (obstacles g)))
             <= Z.of_nat n ->
             0 <= score (main_loop q g)
             /\ score (main_loop q g)
                + Z.of_nat (length (unscored (obstacles (main_loop q g))))
                <= Z.of_nat (n + timer_events q)).
  { induction q as [|events later IH]; intros g n H0 Hn.
    - cbn [main_loop]. split; [exact H0 | lia].
    - cbn [main_loop]. unfold timer_events. cbn [flat_map].
      rewrite length_app. fold (timer_events later).
      destruct (running g).
      + destruct (tick_score_bound events g n H0 Hn) as [H1 H2].
        destruct (IH _ _ H1 H2) as [H3 H4]. split; [exact H3 | lia].
      + split; [exact H0 | lia]. }
  destruct (Hgen queue start 0%nat) as [H1 H2]; cbn; try lia.
Qed.

(** ** What holds between the passes *)

Lemma tick_bird :
  forall events g,
    bird_sized (bird g) ->
    bird_sized (bird (fst (tick events g)))
    /\ on_screen (bird (fst (tick events g))).
Proof.
  intros events g Hg. rewrite tick_eq. cbn [fst render bird].
  assert (Hsized : bird_sized
            (bird (fst (resolve (after_loop (poll_events events g))
                          (loop_collision
                             (run_loop (poll_events events g))))))).
  { unfold resolve.
    destruct (loop_collision (run_loop (poll_events events g)));
      cbn [fst reset bird after_loop]; [apply bird_sized_init|].
    destruct (poll_events_fields events g) as (-> & _).
    destruct (existsb is_flap events);
      [apply bird_sized_move_upwards|]; exact Hg. }
  split; [apply bird_sized_update, Hsized|].
  apply keep_on_screen_bounds.
  destruct (bird_sized_fall _ Hsized) as (_ & Hh & _). exact Hh.
Qed.

(** X10: over any run of the game the bird is the body of 100 by 100 at
    [x = 450]: events, passes and resets only ever change its height and
    velocity, and between the passes its top edge is never above -100 and
    its bottom edge never below [screen_height]. *)
Theorem main_bird_in_bounds :
  forall queue : list (list Event),
    Rect.x (Bird.rect (bird (main queue))) = 450
    /\ Rect.w (Bird.rect (bird (main queue))) = 100
    /\ Rect.h (Bird.rect (bird (main queue))) = 100
    /\ - 100 <= Rect.top (Bird.rect (bird (main queue)))
    /\ Rect.bottom (Bird.rect (bird (main queue))) <= screen_height.
Proof.
  intros queue.
  assert (Hgen : forall q g,
             bird_sized (bird g) -> on_screen (bird g) ->
             bird_sized (bird (main_loop q g))
             /\ on_screen (bird (main_loop q g))).
  { induction q as [|events later IH]; intros g Hs Ho; cbn [main_loop].
    - now split.
    - destruct (running g); [|now split].
      destruct (tick_bird events g Hs) as [Hs' Ho']. now apply IH. }
  destruct (Hgen queue start) as ((Hw & Hh & Hx) & Htop & Hbot).
  - apply bird_sized_init.
  - unfold on_screen. vm_compute. split; discriminate.
  - unfold main. repeat split; assumption.
Qed.

Lemma remove_check_alive :
  forall o,
    Obstacle.alive (remove_check o) = true ->
    Obstacle.alive o = true
    /\ 0 <= Rect.right (Obstacle.top_rect (remove_check o)).
Proof.
  intros o. unfold remove_check.
  destruct (Rect.right (Obstacle.top_rect o) <? 0) eqn:E; cbn [orb].
  - cbn [Obstacle.kill Obstacle.alive]. discriminate.
  - apply Z.ltb_ge in E.
    destruct (Rect.right (Obstacle.bottom_rect o) <? 0).
    + cbn [Obstacle.kill Obstacle.alive]. discriminate.
    + intros H. now split.
Qed.

Lemma tick_obstacles_alive :
  forall events g,
    Forall (fun o => Obstacle.alive o = true
                     /\ 0 <= Rect.right (Obstacle.top_rect o))
           (obstacles (fst (tick events g))).
Proof.
  intros events g. rewrite tick_eq. cbn [fst render obstacles].
  unfold resolve.
  destruct (loop_collision (run_loop (poll_events events g))) eqn:Hc;
    cbn [fst reset obstacles after_loop]; [constructor|].
  unfold run_loop in *.
  destruct (obstacle_loop_no_hit _ _ _ Hc) as [-> _].
  apply Forall_forall. intros o Ho. apply filter_In in Ho as [Ho Halive].
  apply in_map_iff in Ho as (o0 & <- & _).
  split; [exact Halive|]. now apply remove_check_alive.
Qed.

(** X11: between the passes every obstacle of the group is a member in
    good standing: alive, 100 wide, its two rectangles at the same [x],
    and at least partly on the screen, from [x = -100] to
    [x = screen_width]. *)
Theorem main_obstacles_on_screen :
  forall queue : list (list Event),
    Forall (fun o =>
              Obstacle.alive o = true
              /\ Rect.x (Obstacle.top_rect o) = Rect.x (Obstacle.bottom_rect o)
              /\ Rect.w (Obstacle.top_rect o) = 100
              /\ Rect.w (Obstacle.bottom_rect o) = 100
              /\ - 100 <= Rect.x (Obstacle.top_rect o) <= screen_width)
           (obstacles (main queue)).
Proof.
  intros queue.
  pose proof (invariant_main
                (fun o => aligned o
                          /\ Rect.w (Obstacle.top_rect o) = 100
                          /\ Rect.x (Obstacle.top_rect o) <= screen_width))
    as Hshape.
  assert (Halive : forall q g,
             Forall (fun o => Obstacle.alive o = true
                              /\ 0 <= Rect.right (Obstacle.top_rect o))
                    (obstacles g) ->
             Forall (fun o => Obstacle.alive o = true
                              /\ 0 <= Rect.right (Obstacle.top_rect o))
                    (obstacles (main_loop q g))).
  { induction q as [|events later IH]; intros g Hg; cbn [main_loop];
      [exact Hg|].
    destruct (running g); [|exact Hg]. apply IH, tick_obstacles_alive. }
  specialize (Halive queue start (Forall_nil _)). fold (main queue) in Halive.
  assert (Hs : Forall (fun o => aligned o
                                /\ Rect.w (Obstacle.top_rect o) = 100
                                /\ Rect.x (Obstacle.top_rect o) <= screen_width)
                      (obstacles (main queue))).
  { apply Hshape.
    - intros drawn. split; [split; reflexivity|].
      split; [reflexivity|]. cbn. unfold screen_width. lia.
    - intros o (Hal & Hw & Hx).
      split; [apply aligned_update, Hal|].
      destruct (update_fields o) as (_ & _ & _ & _ & -> & _).
      unfold hspeed. rect_simpl. split; [exact Hw | lia].
    - intros o v H. exact H.
    - intros o H. exact H. }
  rewrite Forall_forall in *. intros o Ho.
  destruct (Halive o Ho) as [Ha Hr]. destruct (Hs o Ho) as ([Hx Hw] & Hw1 & Hx1).
  unfold Rect.right in Hr.
  repeat split; try assumption; try lia.
Qed.

(** ** Text on the screen *)

(** X12: the game over text is centred: for a rendered text no larger
    than the screen it lies wholly on the screen, and its margins left
    and right, and top and bottom, are equal or differ by the one pixel of
    an odd size; the score is centred the same way, 20 below the top. *)
Theorem texts_are_centred :
  forall text_width text_height : Z,
    0 <= text_width <= screen_width ->
    0 <= text_height <= screen_height ->
    let left := fst (game_over_position text_width text_height) in
    let top := snd (game_over_position text_width text_height) in
    let right := screen_width - (left + text_width) in
    let bottom := screen_height - (top + text_height) in
    0 <= right <= left /\ left - right <= 1
    /\ 0 <= bottom <= top /\ top - bottom <= 1
    /\ score_position text_width = (left, 20).
Proof.
  intros tw th Hw Hh. unfold game_over_position, score_position.
  unfold screen_height, screen_width in *. cbn [fst snd].
  pose proof (Z.div_mod tw 2 ltac:(lia)) as Hdw.
  pose proof (Z.mod_pos_bound tw 2 ltac:(lia)) as Hmw.
  pose proof (Z.div_mod th 2 ltac:(lia)) as Hdh.
  pose proof (Z.mod_pos_bound th 2 ltac:(lia)) as Hmh.
  change (1000 / 2) with 500.
  repeat split; lia.
Qed.

Lemma texts_are_centred_witness :
  0 <= 271 <= screen_width /\ 0 <= 52 <= screen_height
  /\ score_position 271 = (fst (game_over_position 271 52), 20).
Proof.
  assert (Hw : 0 <= 271 <= screen_width)
    by (unfold screen_width; lia).
  assert (Hh : 0 <= 52 <= screen_height)
    by (unfold screen_height, screen_width; lia).
  split; [exact Hw|]. split; [exact Hh|].
  apply (texts_are_centred 271 52 Hw Hh).
Defined.

(** ** The flap *)

Lemma flap_rise_checked_all :
  forallb flap_rise_checked (heights_from (- 100) 1001) = true.
Proof. vm_compute. reflexivity. Qed.

(** X13: the [update] that follows a flap lifts a bird that is on the
    screen by 5 when its top edge is at [y >= 5], and by 4 when it is at
    [y < 5] (a [Rect] drops the fraction of [y - 4.8] toward zero), never
    above the upper limit -100; the velocity afterwards is [-5 + 0.2],
    whatever it was before the flap. *)
Theorem flap_raises_bird :
  forall b : Bird.t,
    bird_sized b -> on_screen b ->
    let y := Rect.top (Bird.rect b) in
    let b' := Bird.update (Bird.move_upwards b) in
    Rect.top (Bird.rect b')
    = (if 5 <=? y then y - 5 else Z.max (- 100) (y - 4))
    /\ Bird.velocity b' = (-5 + 0.2)%float.
Proof.
  intros [[x y w h] v] (Hw & Hh & Hx) [Htop Hbot].
  unfold screen_height, screen_width in Hbot. rect_simpl. subst x w h.
  change (Bird.move_upwards (Bird.mk (Rect.mk 450 y 100 100) v))
    with (launched y v).
  rewrite launched_velocity.
  pose proof flap_rise_checked_all as Hall. rewrite forallb_forall in Hall.
  specialize (Hall y (heights_from_In (- 100) 1001 y ltac:(lia))).
  unfold flap_rise_checked in Hall. apply andb_prop in Hall as [Hy Hfloor].
  apply Z.eqb_eq in Hy. apply negb_true_iff in Hfloor.
  split; [exact Hy|].
  unfold Bird.update, Bird.keep_on_screen. rewrite Hfloor.
  destruct (Rect.top (Bird.rect (Bird.fall (launched y 0%float))) <=? -100);
    reflexivity.
Qed.

Lemma flap_raises_bird_witness :
  Rect.top (Bird.rect (Bird.update (Bird.move_upwards (bird start)))) = 445
  /\ Bird.velocity (Bird.update (Bird.move_upwards (bird start)))
     = (-5 + 0.2)%float.
Proof.
  apply (flap_raises_bird (bird start)).
  - apply bird_sized_init.
  - unfold on_screen. vm_compute. split; discriminate.
Defined.

(** ** Position and velocity in one update *)

(** The integer kept by a [Rect] is the integer part of the float: for
    the float of sign [s], mantissa [m] and exponent [e], whose value is
    [m * 2 ^ e] with that sign, it has the sign of the float and the
    magnitude [m * 2 ^ e] rounded down. *)
Lemma int_of_float_integer_part :
  forall f s m e,
    Prim2SF f = S754_finite s m e ->
    Z.abs (int_of_float f) * 2 ^ Z.max 0 (- e)
    <= Zpos m * 2 ^ Z.max 0 e
    < (Z.abs (int_of_float f) + 1) * 2 ^ Z.max 0 (- e)
    /\ (if s then int_of_float f <= 0 else 0 <= int_of_float f).
Proof.
  intros f s m e H. unfold int_of_float. rewrite H.
  destruct (0 <=? e) eqn:He.
  - apply Z.leb_le in He.
    rewrite Z.shiftl_mul_pow2 by exact He.
    rewrite (Z.max_l 0 (- e)), (Z.max_r 0 e) by lia.
    assert (Hpos : 0 < 2 ^ e) by (apply Z.pow_pos_nonneg; lia).
    assert (Hmag : 0 <= Zpos m * 2 ^ e) by nia.
    destruct s; rewrite ?Z.abs_opp, Z.abs_eq by exact Hmag; lia.
  - apply Z.leb_gt in He.
    rewrite Z.shiftr_div_pow2 by lia.
    rewrite (Z.max_r 0 (- e)), (Z.max_l 0 e) by lia.
    assert (Hpos : 0 < 2 ^ (- e)) by (apply Z.pow_pos_nonneg; lia).
    assert (Hmag : 0 <= Zpos m / 2 ^ (- e)) by (apply Z.div_pos; lia).
    pose proof (Z.mul_div_le (Zpos m) (2 ^ (- e)) Hpos) as Hle.
    pose proof (Z.mul_succ_div_gt (Zpos m) (2 ^ (- e)) Hpos) as Hgt.
    destruct s; rewrite ?Z.abs_opp, Z.abs_eq by exact Hmag; lia.
Qed.

Lemma float_of_Z_exact_on_screen :
  forallb (fun z => int_of_float (float_of_Z z) =? z)
          (heights_from (- 100) 1001) = true.
Proof. vm_compute. reflexivity. Qed.

Lemma on_screen_after :
  forall x y calls, on_screen (bird_after x y calls).
Proof.
  intros x y calls. unfold bird_after.
  assert (H0 : on_screen (Bird.__init__ x y))
    by (unfold on_screen; vm_compute; split; discriminate).
  assert (Hgen : forall b, bird_sized b -> on_screen b ->
                           bird_sized (fold_left bird_call calls b)
                           /\ on_screen (fold_left bird_call calls b)).
  { induction calls as [|c calls IH]; intros b Hs Ho; [now split|].
    cbn [fold_left]. apply IH; destruct c; cbn [bird_call].
    - exact Hs.
    - apply bird_sized_update, Hs.
    - exact Ho.
    - apply keep_on_screen_bounds.
      destruct (bird_sized_fall _ Hs) as (_ & Hh & _). exact Hh. }
  apply Hgen; [apply bird_sized_init | exact H0].
Qed.

(** C7, as the program has it: [update] first adds 0.2 to the velocity;
    then it puts the bird at the integer part, rounded toward zero, of
    the sum of its vertical position (which enters the sum exactly) and
    the new velocity; when the bottom edge is then at or below
    [screen_height], the bottom edge is set to [screen_height] and the
    velocity to [-velocity * 0.75]; otherwise the velocity is left as it
    is. *)
Theorem bird_update_gravity_move_bounce :
  forall (x y : Z) (calls : list BirdCall),
    let b := bird_after x y calls in
    let v := (Bird.velocity b + 0.2)%float in
    let sum := (float_of_Z (Rect.y (Bird.rect b)) + v)%float in
    let y' := Rect.y (Bird.rect (Bird.fall b)) in
    Bird.velocity (Bird.fall b) = v
    /\ int_of_float (float_of_Z (Rect.y (Bird.rect b))) = Rect.y (Bird.rect b)
    /\ (forall s m e,
           Prim2SF sum = S754_finite s m e ->
           Z.abs y' * 2 ^ Z.max 0 (- e)
           <= Zpos m * 2 ^ Z.max 0 e
           < (Z.abs y' + 1) * 2 ^ Z.max 0 (- e)
           /\ (if s then y' <= 0 else 0 <= y'))
    /\ (forall s, Prim2SF sum = S754_zero s -> y' = 0)
    /\ Bird.update b = Bird.keep_on_screen (Bird.fall b)
    /\ (screen_height <= Rect.bottom (Bird.rect (Bird.fall b)) ->
        Rect.bottom (Bird.rect (Bird.update b)) = screen_height
        /\ Bird.velocity (Bird.update b) = (- v * 0.75)%float)
    /\ (Rect.bottom (Bird.rect (Bird.fall b)) < screen_height ->
        Bird.velocity (Bird.update b) = v)
    /\ (- 100 < y' /\ y' + 100 < screen_height ->
        Bird.update b = Bird.fall b).
Proof.
  intros x y calls b v sum y'.
  destruct (bird_sized_after x y calls) as (_ & Hh & _). fold b in Hh.
  destruct (on_screen_after x y calls) as [Htop Hbot]. fold b in Htop, Hbot.
  assert (Hy' : y' = int_of_float sum) by reflexivity.
  split; [reflexivity|]. split.
  { pose proof float_of_Z_exact_on_screen as Hall.
    rewrite forallb_forall in Hall. apply Z.eqb_eq, Hall, heights_from_In.
    unfold screen_height, screen_width in Hbot. rect_simpl. lia. }
  split; [intros s m e Hs; rewrite Hy'; now apply int_of_float_integer_part|].
  split.
  { intros s Hs. rewrite Hy'. unfold int_of_float. now rewrite Hs. }
  split; [reflexivity|].
  unfold Bird.update, Bird.keep_on_screen.
  assert (Hfall : Bird.rect (Bird.fall b) = Rect.set_y (Bird.rect b) y')
    by reflexivity.
  assert (Hvel : Bird.velocity (Bird.fall b) = v) by reflexivity.
  rewrite Hfall, Hvel. rect_simpl. rewrite Z.geb_leb, Hh.
  unfold screen_height, screen_width.
  destruct (y' <=? -100) eqn:Et; destruct (1000 <=? y' + 100) eqn:Eb;
    cbn [Bird.rect Bird.velocity Rect.y Rect.h];
    try apply Z.leb_le in Et; try apply Z.leb_gt in Et;
    try apply Z.leb_le in Eb; try apply Z.leb_gt in Eb;
    repeat split; intros; try reflexivity; try lia.
Qed.

(** C7, as the specification states it, fails on the first [update] of
    the game: the velocity becomes -4.8 and the position goes from 450
    to 445, which is not 450 + (-4.8); the fraction of 445.2 is lost. *)
Lemma bird_move_drops_fraction :
  let b := bird start in
  Bird.velocity (Bird.update b) = (-5 + 0.2)%float
  /\ Rect.y (Bird.rect b) = 450
  /\ Rect.y (Bird.rect (Bird.update b)) = 445
  /\ PrimFloat.eqb (float_of_Z (Rect.y (Bird.rect (Bird.update b))))
                   (float_of_Z (Rect.y (Bird.rect b))
                    + Bird.velocity (Bird.update b))%float = false
  /\ PrimFloat.ltb (float_of_Z (Rect.y (Bird.rect (Bird.update b))))
                   (float_of_Z (Rect.y (Bird.rect b))
                    + Bird.velocity (Bird.update b))%float = true.
Proof. vm_compute. repeat split. Qed.

(** ** Counting the points *)

Lemma main_loop_app :
  forall q1 q2 g, main_loop (q1 ++ q2) g = main_loop q2 (main_loop q1 g).
Proof.
  induction q1 as [|events q1 IH]; intros q2 g; [reflexivity|].
  cbn [app main_loop]. destruct (running g) eqn:E; [apply IH|].
  symmetry. apply main_loop_stopped, E.
Qed.

Lemma passed_sized :
  forall b o,
    bird_sized b ->
    passed b o = (Rect.right (Obstacle.top_rect o) <? 450).
Proof. intros b o (_ & _ & Hx). unfold passed, Rect.left. now rewrite Hx. Qed.

Lemma update_right :
  forall o,
    Rect.right (Obstacle.top_rect (Obstacle.update o))
    = Rect.right (Obstacle.top_rect o) - hspeed.
Proof.
  intros o. destruct (update_fields o) as (_ & _ & _ & _ & -> & _).
  rect_simpl. lia.
Qed.

(** Lines 128-131 count a point exactly for the obstacle that crosses,
    and leave the flag saying whether the edge has passed. *)
Lemma advance_and_score_crossing :
  forall b o s,
    bird_sized b -> flag_matches o ->
    snd (advance_and_score b o s) = s + (if crosses b o then 1 else 0)
    /\ flag_matches (fst (advance_and_score b o s))
    /\ Obstacle.top_rect (fst (advance_and_score b o s))
       = Obstacle.top_rect (Obstacle.update o).
Proof.
  intros b o s Hb Hflag. unfold advance_and_score, score_check, crosses.
  destruct (update_fields o) as (_ & _ & _ & Hs & _).
  unfold flag_matches in *. rewrite Hs, Hflag, !(passed_sized b) by exact Hb.
  pose proof (update_right o) as Hr. unfold hspeed in Hr.
  destruct (Rect.right (Obstacle.top_rect (Obstacle.update o)) <? 450) eqn:E1;
    destruct (Rect.right (Obstacle.top_rect o) <? 450) eqn:E2;
    cbn [andb negb fst snd Obstacle.set_scored Obstacle.scored
         Obstacle.top_rect];
    rewrite ?Hs, ?Hflag, ?E1, ?E2; repeat split; lia.
Qed.

Lemma remove_check_flag :
  forall o, flag_matches o -> flag_matches (remove_check o).
Proof.
  intros o H. unfold remove_check.
  destruct ((Rect.right (Obstacle.top_rect o) <? 0)
            || (Rect.right (Obstacle.bottom_rect o) <? 0)); exact H.
Qed.

Lemma reached_no_hit :
  forall b snapshot s,
    loop_collision (obstacle_loop b snapshot s) = false ->
    reached b snapshot = snapshot.
Proof.
  intros b snapshot s. rewrite obstacle_loop_collision.
  induction snapshot as [|o rest IH]; [reflexivity|].
  cbn [existsb reached]. intros H. apply orb_false_iff in H as [-> H].
  now rewrite IH.
Qed.

(** The [for] loop adds one point for each obstacle it gets to that
    crosses in this pass, and keeps the flags right. *)
Lemma obstacle_loop_points :
  forall b snapshot s,
    bird_sized b -> Forall flag_matches snapshot ->
    loop_score (obstacle_loop b snapshot s)
    = s + Z.of_nat (length (filter (crosses b) (reached b snapshot)))
    /\ Forall flag_matches (loop_obstacles (obstacle_loop b snapshot s)).
Proof.
  intros b snapshot s Hb. revert s.
  induction snapshot as [|o rest IH]; intros s Hall.
  - split; [cbn; lia | constructor].
  - inversion Hall as [|? ? Ho Hrest]; subst.
    cbn [obstacle_loop reached].
    destruct (advance_and_score_crossing b o s Hb Ho) as (Hs & Hf & _).
    pose proof (collides_score_check b (Obstacle.update o) s) as Hc.
    fold (advance_and_score b o s) in Hc.
    destruct (advance_and_score b o s) as [o' s']. cbn [fst snd] in *.
    rewrite <- Hc. destruct (collides b o'); cbn [loop_score loop_obstacles].
    + split; [|constructor; assumption].
      cbn [filter]. destruct (crosses b o); cbn [length]; lia.
    + destruct (IH s' Hrest) as [H1 H2]. split.
      * rewrite H1, Hs. cbn [filter].
        destruct (crosses b o); cbn [length]; lia.
      * constructor; [apply remove_check_flag, Hf | exact H2].
Qed.

Lemma poll_events_flags :
  forall events g,
    Forall flag_matches (obstacles g) ->
    Forall flag_matches (obstacles (poll_events events g)).
Proof.
  intros events g Hg.
  destruct (poll_events_fields events g) as (_ & -> & _).
  apply Forall_app. split; [exact Hg|].
  apply Forall_forall. intros o Ho. apply in_map_iff in Ho as (d & <- & _).
  reflexivity.
Qed.

Lemma poll_events_bird_sized :
  forall events g,
    bird_sized (bird g) -> bird_sized (bird (poll_events events g)).
Proof.
  intros events g Hg. destruct (poll_events_fields events g) as (-> & _).
  destruct (existsb is_flap events); [apply bird_sized_move_upwards|];
    exact Hg.
Qed.

Lemma tick_flags :
  forall events g,
    bird_sized (bird g) -> Forall flag_matches (obstacles g) ->
    Forall flag_matches (obstacles (fst (tick events g))).
Proof.
  intros events g Hb Hg. rewrite tick_eq. cbn [fst render obstacles].
  unfold resolve.
  destruct (loop_collision (run_loop (poll_events events g)));
    cbn [fst reset obstacles after_loop]; [constructor|].
  apply Forall_forall. intros o Ho. apply filter_In in Ho as [Ho _].
  revert o Ho. apply Forall_forall. unfold run_loop.
  apply obstacle_loop_points;
    [apply poll_events_bird_sized, Hb | apply poll_events_flags, Hg].
Qed.

Lemma main_flags :
  forall queue, Forall flag_matches (obstacles (main queue)).
Proof.
  intros queue. unfold main.
  assert (Hgen : forall q g,
             bird_sized (bird g) -> Forall flag_matches (obstacles g) ->
             Forall flag_matches (obstacles (main_loop q g))).
  { induction q as [|events later IH]; intros g Hb Hg; cbn [main_loop];
      [exact Hg|].
    destruct (running g); [|exact Hg].
    apply IH; [apply tick_bird, Hb | apply tick_flags; assumption]. }
  apply Hgen; [apply bird_sized_init | constructor].
Qed.

(** C1: in every pass of every run of the game, the flag of an obstacle
    of the group is set exactly when its right edge has already been left
    of the bird's left edge; the loop adds to the score exactly one point
    for each obstacle it gets to whose right edge comes to be left of the
    bird's left edge in this pass, for the first time; after a pass
    without a hit that is the score of the game (after a hit the score is
    reset to 0); and an edge that has passed stays passed, so the
    obstacle does not cross, and is not counted, a second time. *)
Theorem each_obstacle_scores_once :
  forall (queue : list (list Event)) (events : list Event),
    running (main queue) = true ->
    let g1 := poll_events events (main queue) in
    let b := bird g1 in
    Forall (fun o => Obstacle.scored o = passed b o) (obstacles g1)
    /\ loop_score (run_loop g1)
       = score (main queue)
         + Z.of_nat (length (filter (crosses b) (reached b (obstacles g1))))
    /\ (loop_collision (run_loop g1) = false ->
        reached b (obstacles g1) = obstacles g1
        /\ score (main (queue ++ [events])) = loop_score (run_loop g1))
    /\ (loop_collision (run_loop g1) = true ->
        score (main (queue ++ [events])) = 0)
    /\ (forall (o : Obstacle.t) (n : nat) (b' : Bird.t),
           bird_sized b' -> passed b o = true ->
           passed b' (advance n o) = true
           /\ crosses b' (advance n o) = false).
Proof.
  intros queue events Hrun g1 b.
  assert (Hb : bird_sized b)
    by apply poll_events_bird_sized, main_bird_sized.
  assert (Hflags : Forall flag_matches (obstacles g1))
    by apply poll_events_flags, main_flags.
  destruct (obstacle_loop_points b (obstacles g1) (score g1) Hb Hflags)
    as [Hpoints _].
  assert (Hscore : score g1 = score (main queue))
    by apply poll_events_fields.
  assert (Hnext : main (queue ++ [events]) = fst (tick events (main queue))).
  { unfold main. rewrite main_loop_app. fold (main queue).
    cbn [main_loop]. now rewrite Hrun. }
  split.
  { eapply Forall_impl; [|exact Hflags]. intros o Ho.
    unfold flag_matches in Ho. now rewrite (passed_sized b o Hb). }
  split; [unfold run_loop; fold b; now rewrite Hpoints, Hscore|].
  split.
  { intros Hc. split; [apply (reached_no_hit b _ (score g1)), Hc|].
    rewrite Hnext, tick_eq. fold g1. rewrite Hc. reflexivity. }
  split.
  { intros Hc. rewrite Hnext, tick_eq. fold g1. rewrite Hc. reflexivity. }
  intros o n b' Hb' Hp.
  assert (Hp' : passed b' (advance n o) = true).
  { rewrite passed_sized in Hp |- * by assumption.
    apply Z.ltb_lt in Hp. apply Z.ltb_lt.
    destruct (advance_rects n o) as (H1 & _ & _ & H4 & _).
    unfold Rect.right. rewrite H1, H4. unfold hspeed.
    unfold Rect.right in Hp. lia. }
  split; [exact Hp'|]. unfold crosses. now rewrite Hp'.
Qed.

(** A run in which the player keeps the bird in the opening: the
    obstacle of the first pass crosses in pass 217. *)
Lemma each_obstacle_scores_once_witness :
  running (main (steady_queue 300 216)) = true
  /\ score (main (steady_queue 300 216)) = 0
  /\ loop_score (run_loop (poll_events [] (main (steady_queue 300 216))))
     = 0 + 1
  /\ score (main (steady_queue 300 216 ++ [[]])) = 1
  /\ score (main (steady_queue 300 400)) = 1.
Proof.
  assert (Hrun : running (main (steady_queue 300 216)) = true)
    by (vm_compute; reflexivity).
  destruct (each_obstacle_scores_once (steady_queue 300 216) [] Hrun)
    as (_ & Hloop & Hfree & _).
  split; [exact Hrun|]. split; [vm_compute; reflexivity|].
  split.
  - rewrite Hloop. vm_compute. reflexivity.
  - split; vm_compute; reflexivity.
Defined.

Lemma on_track_main :
  forall queue events,
    Forall on_track (obstacles (poll_events events (main queue))).
Proof.
  intros queue events.
  assert (Hspawn : forall drawn, on_track (spawn drawn))
    by (intros drawn; exists 0%nat; split; reflexivity).
  apply invariant_poll_events; [exact Hspawn|].
  apply invariant_main; [exact Hspawn | | |].
  - intros o (k & Hx & Hw). exists (S k).
    destruct (update_fields o) as (_ & _ & _ & _ & -> & _).
    rect_simpl. split; [lia | exact Hw].
  - intros o v H. exact H.
  - intros o H. exact H.
Qed.

(** X8: in every pass of every run, an obstacle of the group stands at
    [x = screen_width - hspeed * k] for the number [k] of updates it has
    had, and lines 128-131, when the loop gets to it, count a point for
    it exactly in its 217th update, the one that takes it from
    [x = 352] to [x = 349]. *)
Theorem point_counted_in_217th_update :
  forall (queue : list (list Event)) (events : list Event)
         (o : Obstacle.t) (s : Z),
    In o (obstacles (poll_events events (main queue))) ->
    exists k : nat,
      Rect.x (Obstacle.top_rect o) = screen_width - hspeed * Z.of_nat k
      /\ snd (advance_and_score (bird (poll_events events (main queue))) o s)
         = s + (if (k =? 216)%nat then 1 else 0).
Proof.
  intros queue events o s Hin.
  pose proof (on_track_main queue events) as Htrack.
  pose proof (poll_events_flags events _ (main_flags queue)) as Hflags.
  rewrite Forall_forall in Htrack, Hflags.
  destruct (Htrack o Hin) as (k & Hx & Hw). specialize (Hflags o Hin).
  assert (Hb : bird_sized (bird (poll_events events (main queue))))
    by apply poll_events_bird_sized, main_bird_sized.
  exists k. split; [exact Hx|].
  destruct (advance_and_score_crossing _ o s Hb Hflags) as (-> & _).
  f_equal. unfold crosses. rewrite !passed_sized by exact Hb.
  rewrite update_right. unfold Rect.right. rewrite Hx, Hw.
  unfold screen_width, hspeed.
  destruct (k =? 216)%nat eqn:E.
  - apply Nat.eqb_eq in E. subst k. reflexivity.
  - apply Nat.eqb_neq in E.
    destruct (1000 - 3 * Z.of_nat k + 100 <? 450) eqn:E1; [reflexivity|].
    destruct (1000 - 3 * Z.of_nat k + 100 - 3 <? 450) eqn:E2; [|reflexivity].
    apply Z.ltb_ge in E1. apply Z.ltb_lt in E2. lia.
Qed.

Lemma point_counted_in_217th_update_witness :
  In (spawn 300) (obstacles (poll_events [OBSTACLE_TIMER 300] (main [])))
  /\ exists k : nat,
      Rect.x (Obstacle.top_rect (spawn 300))
      = screen_width - hspeed * Z.of_nat k
      /\ snd (advance_and_score
                (bird (poll_events [OBSTACLE_TIMER 300] (main [])))
                (spawn 300) 0)
         = 0 + (if (k =? 216)%nat then 1 else 0).
Proof.
  assert (Hin : In (spawn 300)
                   (obstacles (poll_events [OBSTACLE_TIMER 300] (main []))))
    by (left; reflexivity).
  split; [exact Hin|].
  exact (point_counted_in_217th_update [] [OBSTACLE_TIMER 300] (spawn 300) 0
           Hin).
Defined.

(** ** The order of a pass *)

(** C3, as the program has it: a pass handles the input events first;
    then every obstacle of the group is advanced, checked for the score
    and tested against the bird as the previous pass left it, the bird's
    physics not yet advanced; then, after a hit, the game is reset; then
    the frame is drawn, and in drawing it the bird's physics is advanced,
    that of the new bird after a reset.  The bird's physics is advanced
    after the collision tests of the pass, not before. *)
Theorem pass_order :
  forall (events : list Event) (g : Game),
    let g1 := poll_events events g in
    let hit :=
      existsb (fun o => collides (bird g1) (Obstacle.update o))
              (obstacles g1) in
    loop_collision (run_loop g1) = hit
    /\ fst (tick events g)
       = (if hit
          then mkGame (Bird.update
                         (Bird.__init__ (screen_width / 2)
                                        (screen_height / 2)))
                      [] 0 (running g1) obstacle_interval
          else mkGame (Bird.update (bird g1))
                      (filter Obstacle.alive
                         (map (fun o =>
                                 remove_check
                                   (fst (advance_and_score (bird g1) o 0)))
                              (obstacles g1)))
                      (fold_left
                         (fun sc o => snd (advance_and_score (bird g1) o sc))
                         (obstacles g1) (score g1))
                      (running g1) (timer g1)).
Proof.
  intros events g g1 hit.
  assert (Hhit : loop_collision (run_loop g1) = hit)
    by apply obstacle_loop_collision.
  split; [exact Hhit|].
  rewrite tick_eq. fold g1. cbn [fst]. rewrite Hhit. unfold resolve, render.
  destruct hit eqn:E; cbn [fst reset after_loop bird obstacles score running
                            timer].
  - reflexivity.
  - unfold run_loop in *.
    destruct (obstacle_loop_no_hit _ _ _ Hhit) as [-> ->]. reflexivity.
Qed.

(** C3, as the specification states it, fails in pass 172 of a run in
    which the player flaps every 53rd pass: the bird's [update] of that
    pass takes it into the top rectangle of the obstacle.  In the
    specification's order the test of the pass sees the bird after that
    [update], finds the hit and resets the game; the program tests the
    bird before it, finds nothing and goes on with the obstacle. *)
Lemma pass_differs_from_claimed_order :
  let g := main (steady_queue 400 171) in
  running g = true
  /\ existsb (fun o => collides (bird g) (Obstacle.update o)) (obstacles g)
     = false
  /\ existsb (fun o => collides (Bird.update (bird g)) (Obstacle.update o))
             (obstacles g) = true
  /\ length (obstacles (fst (tick [] g))) = 1%nat
  /\ obstacles (claimed_tick [] g) = []
  /\ fst (tick [] g) <> claimed_tick [] g.
Proof.
  intros g.
  assert (H1 : length (obstacles (fst (tick [] g))) = 1%nat)
    by (vm_compute; reflexivity).
  assert (H2 : obstacles (claimed_tick [] g) = [])
    by (vm_compute; reflexivity).
  split; [vm_compute; reflexivity|]. split; [vm_compute; reflexivity|].
  split; [vm_compute; reflexivity|]. split; [exact H1|]. split; [exact H2|].
  intros Heq. rewrite Heq, H2 in H1. discriminate H1.
Qed.
